(** * Record-driven job dispatch scripts (mymap_airtable_api.js)

    A shallow embedding of the six automation scripts
    [create_map_image], [ai_generate], [translate_i18n], [google_search],
    [crawl_url_content] and [sync_to_wordpress], and the properties of the
    dispatch pattern they share.

    The scripts are [async] functions over an ambient record store ([base])
    and the network ([fetch]).  They are embedded in a state-and-exception
    monad: the state holds the record store and a chronological log of the
    externally visible effects (requests issued, fields created); an
    invocation returns, throws, or never settles.  [console] output is not
    part of the state: the [catch] blocks of the source only log and rethrow,
    so they are the identity here. *)

From Stdlib Require Import ZArith Lia Ascii String.
From stdpp Require Import base strings list gmap pretty.

Local Open Scope string_scope.
Local Open Scope Z_scope.
Local Open Scope list_scope.
#[local] Set Warnings "-register-all".

(** ** Values *)

(** Cell values, parsed JSON and request bodies are JavaScript values of the
    JSON fragment.  Numbers are restricted to integers.  An object keeps its
    members in property order. *)
Inductive json : Type :=
| JNull
| JBool (b : bool)
| JNum (n : Z)
| JStr (s : string)
| JArr (items : list json)
| JObj (members : list (string * json)).

(** [!!v] of JavaScript: [null], [false], [0] and [""] are falsy. *)
Definition truthy (v : json) : bool :=
  match v with
  | JNull => false
  | JBool b => b
  | JNum n => negb (n =? 0)
  | JStr s => negb (String.eqb s "")
  | JArr _ | JObj _ => true
  end.

(** Truthiness of a string, as in [!keywords]. *)
Definition truthy_str (s : string) : bool := negb (String.eqb s "").

(** [`${n}`] for an integer. *)
Definition show (n : Z) : string := pretty n.

(** Everything a script can throw.  The scripts themselves only raise
    [Error] ([throw new Error(message)]): a missing input, a status that is
    not a success and the elapsed timer are all [Error]s, told apart by
    their message.  The other constructors are raised by the runtime, the
    record store or a rejected [fetch]. *)
Inductive exn : Type :=
| Error (message : string)
| TypeError (message : string)
| SyntaxError (message : string)
| SdkError (message : string)
| NetworkError (message : string).

(** ** The record store

    The store is the host's, not the scripts'.  It is modelled as far as the
    scripts use it: a base is a list of tables, found by id or by name; a
    table has columns and rows; a record handed to a script is a snapshot of
    a row with the fields loaded at that moment, which is why
    [sync_to_wordpress] fetches its record again after creating a field
    ("Refresh the record to include the new field").  Reading a field that
    the snapshot does not have throws. *)

Record column : Type := { col_name : string; col_type : string }.

(** A row stores its non-empty cells only. *)
Record row : Type := { row_id : string; row_cells : gmap string json }.

Record table : Type := {
  tbl_id : string;
  tbl_name : string;
  columns : list column;
  rows : list row
}.

(** What [selectRecordAsync] hands out: a snapshot of one row together with
    the fields that were loaded for it. *)
Record row_snapshot : Type := {
  rec_id : string;
  rec_fields : list string;
  rec_cells : gmap string json
}.

(** ** The network *)

Record request : Type := {
  url : string;
  method : string;
  headers : list (string * string);
  body : json   (* the argument of [JSON.stringify] *)
}.

Record response : Type := { status : Z }.

(** [response.ok] *)
Definition ok (r : response) : bool := (200 <=? status r) && (status r <=? 299).

Inductive settlement : Type :=
| Fulfilled (r : response)
| Rejected (e : exn).

(** The promise returned by [fetch]: it settles some milliseconds after the
    call, or never. *)
Inductive promise : Type :=
| Settles (after_ms : Z) (s : settlement)
| NeverSettles.

(** ** The environment of an invocation

    The built-ins of the host and the behaviour of the remote side, none of
    which is code of the scripts. *)
Record env : Type := {
  (** the store's string rendering of a non-empty cell *)
  format_cell : json -> string;
  (** [JSON.stringify] on a value *)
  JSON_stringify : json -> string;
  (** [JSON.parse]; [None] is a [SyntaxError] *)
  JSON_parse : json -> option json;
  (** the answer to the [n]-th request issued since the log began *)
  server : nat -> request -> promise;
  (** whether the timer callback runs first when both are due together *)
  timer_first_on_tie : bool;
  (** [createFieldAsync table name type] rejected by the store *)
  create_field_error : string -> string -> string -> option exn
}.

(** ** State, effects and the monad *)

Inductive event : Type :=
| Fetch (rq : request)
| CreateField (table_id name type : string).

Record world : Type := { base : list table; log : list event }.

Inductive outcome (A : Type) : Type :=
| Ok (a : A)
| Throw (e : exn)
| Never.
Arguments Ok {A} a.
Arguments Throw {A} e.
Arguments Never {A}.

Definition M (A : Type) : Type := world -> outcome A * world.

Definition ret {A} (a : A) : M A := fun w => (Ok a, w).
Definition throw {A} (e : exn) : M A := fun w => (Throw e, w).
Definition bind {A B} (m : M A) (k : A -> M B) : M B :=
  fun w =>
    match m w with
    | (Ok a, w') => k a w'
    | (Throw e, w') => (Throw e, w')
    | (Never, w') => (Never, w')
    end.

Notation "'let*' x ':=' m 'in' k" := (bind m (fun x => k))
  (at level 10, x name, m at level 100, k at level 200).
Notation "m ';;' k" := (bind m (fun _ => k))
  (at level 100, k at level 200, right associativity).

(** Lifting a fallible pure read. *)
Definition lift {A} (r : exn + A) : M A :=
  match r with inl e => throw e | inr a => ret a end.

Fixpoint mapM {A B} (f : A -> M B) (l : list A) : M (list B) :=
  match l with
  | [] => ret []
  | x :: l' => let* y := f x in let* ys := mapM f l' in ret (y :: ys)
  end.

Fixpoint filterM {A} (p : A -> M bool) (l : list A) : M (list A) :=
  match l with
  | [] => ret []
  | x :: l' =>
      let* b := p x in
      let* ys := filterM p l' in
      ret (if b then x :: ys else ys)
  end.

(** [for (let x of l) { await f(x) }] *)
Fixpoint forM_ {A} (f : A -> M unit) (l : list A) : M unit :=
  match l with
  | [] => ret tt
  | x :: l' => f x ;; forM_ f l'
  end.

(** ** Store operations *)

Definition find_table (x : string) (b : list table) : option (nat * table) :=
  list_find (fun t => tbl_id t = x \/ tbl_name t = x) b.

(** [base.getTable(idOrName)]: a handle on the table, here its position in
    the base; throws when there is none. *)
Definition getTable (x : string) : M nat :=
  fun w =>
    match find_table x (base w) with
    | Some (h, _) => (Ok h, w)
    | None => (Throw (SdkError ("No table matching " +:+ x)), w)
    end.

Definition the_table (h : nat) : M table :=
  fun w =>
    match base w !! h with
    | Some t => (Ok t, w)
    | None => (Throw (SdkError "No such table"), w)
    end.

Definition field_names (t : table) : list string := col_name <$> columns t.

Definition snapshot (fields : list string) (r : row) : row_snapshot :=
  {| rec_id := row_id r; rec_fields := fields; rec_cells := row_cells r |}.

(** [table.selectRecordAsync(record_id)]: the record, or [null]. *)
Definition selectRecordAsync (h : nat) (record_id : string) : M (option row_snapshot) :=
  let* t := the_table h in
  ret (snapshot (field_names t) <$> find (fun r => bool_decide (row_id r = record_id)) (rows t)).

(** [table.selectRecordsAsync({ recordIds })]: the records with these ids. *)
Definition selectRecordsAsync_ids (h : nat) (ids : list string) : M (list row_snapshot) :=
  let* t := the_table h in
  ret (omap (fun i => snapshot (field_names t) <$>
                     find (fun r => bool_decide (row_id r = i)) (rows t)) ids).

(** [table.selectRecordsAsync({ fields })]: every record, with only the named
    fields loaded; throws on a field the table does not have. *)
Definition selectRecordsAsync_fields (h : nat) (fields : list string) : M (list row_snapshot) :=
  let* t := the_table h in
  if forallb (fun f => bool_decide (f ∈ field_names t)) fields
  then ret (snapshot fields <$> rows t)
  else throw (SdkError "No field matching the query").

(** [record.getCellValue(field)]: [null] for an empty cell; reading through
    [null]/[undefined] is a [TypeError]; a field that is not loaded throws. *)
Definition getCellValue (r : option row_snapshot) (f : string) : exn + json :=
  match r with
  | None => inl (TypeError "Cannot read properties of null (reading 'getCellValue')")
  | Some r =>
      if bool_decide (f ∈ rec_fields r)
      then inr (default JNull (rec_cells r !! f))
      else inl (SdkError ("No field matching " +:+ f))
  end.

(** [record.getCellValueAsString(field)]: [""] for an empty cell. *)
Definition getCellValueAsString (E : env) (r : option row_snapshot) (f : string) : exn + string :=
  match r with
  | None => inl (TypeError "Cannot read properties of null (reading 'getCellValueAsString')")
  | Some r =>
      if bool_decide (f ∈ rec_fields r)
      then inr (from_option (format_cell E) "" (rec_cells r !! f))
      else inl (SdkError ("No field matching " +:+ f))
  end.

(** [table.getConfigAsync()], of which the scripts use [.columns]. *)
Definition getConfigAsync (h : nat) : M (list column) :=
  let* t := the_table h in ret (columns t).

Definition add_column (c : column) (t : table) : table :=
  {| tbl_id := tbl_id t; tbl_name := tbl_name t;
     columns := columns t ++ [c]; rows := rows t |}.

(** [table.createFieldAsync(name, type)]: adds the field to the table, unless
    the store rejects the call.  The store itself does not look for an
    existing field of that name here: whether a second field is ever asked
    for is up to the caller. *)
Definition createFieldAsync (E : env) (h : nat) (name type : string) : M unit :=
  let* t := the_table h in
  match create_field_error E (tbl_id t) name type with
  | Some e => throw e
  | None =>
      fun w =>
        (Ok tt, {| base := <[h := add_column {| col_name := name; col_type := type |} t]> (base w);
                   log := log w ++ [CreateField (tbl_id t) name type] |})
  end.

(** ** Network operations *)

Definition fetches (l : list event) : list request :=
  omap (fun ev => match ev with Fetch rq => Some rq | _ => None end) l.

Definition created_fields (l : list event) : list (string * string * string) :=
  omap (fun ev => match ev with CreateField t n ty => Some (t, n, ty) | _ => None end) l.

(** [fetch(url, { method: 'POST', body })]: the request leaves at once; the
    promise is the remote side's answer. *)
Definition fetch (E : env) (rq : request) : M promise :=
  fun w =>
    (Ok (server E (length (fetches (log w))) rq),
     {| base := base w; log := log w ++ [Fetch rq] |}).

Definition await_settlement {A} (s : settlement) (k : response -> M A) : M A :=
  match s with
  | Fulfilled r => k r
  | Rejected e => throw e
  end.

(** [await p] *)
Definition await (p : promise) : M response :=
  match p with
  | Settles _ s => await_settlement s ret
  | NeverSettles => fun w => (Never, w)
  end.

(** [Promise.race([p, timeoutPromise])] where the timer rejects with [e]
    after [timeout] milliseconds: whichever settles first. *)
Definition Promise_race (E : env) (p : promise) (timeout : Z) (e : exn) : promise :=
  match p with
  | Settles t s =>
      if t <? timeout then Settles t s
      else if timeout <? t then Settles timeout (Rejected e)
      else if timer_first_on_tie E then Settles timeout (Rejected e)
      else Settles t s
  | NeverSettles => Settles timeout (Rejected e)
  end.

Definition post (u : string) (b : json) : request :=
  {| url := u; method := "POST"; headers := []; body := b |}.

(** ** Object and string helpers *)

(** [obj[k] = v] on an object: an existing key keeps its place. *)
Fixpoint obj_set (k : string) (v : json) (o : list (string * json)) : list (string * json) :=
  match o with
  | [] => [(k, v)]
  | (k', v') :: o' => if String.eqb k' k then (k, v) :: o' else (k', v') :: obj_set k v o'
  end.

Definition obj_get (k : string) (v : json) : option json :=
  match v with
  | JObj o => snd <$> find (fun kv => String.eqb (fst kv) k) o
  | _ => None
  end.

(** The members ["0"], ["1"], ... of an array-like value. *)
Definition indexed {A} (f : A -> json) (l : list A) : list (string * json) :=
  imap (fun i x => (pretty i, f x)) l.

(** The own enumerable properties that [{...v}] copies: the members of an
    object, the indexed items of an array, the indexed characters of a
    string (one per byte here), nothing for the other values. *)
Definition spread (v : json) : list (string * json) :=
  match v with
  | JObj o => o
  | JArr items => indexed id items
  | JStr s => indexed (fun c => JStr (String c "")) (String.list_ascii_of_string s)
  | JNull | JBool _ | JNum _ => []
  end.

(** The newline and the double quote. *)
Definition nl : string := String "010"%char "".
Definition dquote : string := String "034"%char "".

(** [l.join(sep)] *)
Fixpoint join (sep : string) (l : list string) : string :=
  match l with
  | [] => ""
  | [x] => x
  | x :: l' => x +:+ sep +:+ join sep l'
  end.

(** ** create_map_image *)

Definition CREATE_MAP_API_ENDPOINT : string := "https://jobs.mymap.ai/jobs/new_map_image/run".
Definition TIMEOUT : Z := 120000.

Definition timeout_error : exn :=
  Error ("Request timed out after " +:+ show (TIMEOUT / 1000) +:+ " seconds").

Definition map_image_body (tpl prompt : json) (output_column record_id table_id base_id : string) : json :=
  JObj [("base_id", JStr base_id);
        ("table_id", JStr table_id);
        ("record_id", JStr record_id);
        ("output_column", JStr output_column);
        ("visuals", JArr [JObj [("tpl", tpl); ("prompt", prompt)]])].

Definition create_map_image (E : env)
    (tpl_column prompt_column output_column record_id table_id base_id : string) : M unit :=
  let* table := getTable table_id in
  let* records := selectRecordsAsync_ids table [record_id] in
  let record := head records in
  let* tpl := lift (getCellValue record tpl_column) in
  let* prompt := lift (getCellValue record prompt_column) in
  if negb (truthy tpl) || negb (truthy prompt)
  then throw (Error "Missing template or prompt")
  else
    let* fetchPromise :=
      fetch E (post CREATE_MAP_API_ENDPOINT
                 (map_image_body tpl prompt output_column record_id table_id base_id)) in
    let* response := await (Promise_race E fetchPromise TIMEOUT timeout_error) in
    if negb (ok response)
    then throw (Error ("API request failed with status " +:+ show (status response)))
    else ret tt.

(** ** ai_generate *)

Definition AI_API_ENDPOINT : string := "https://jobs.mymap.ai/job/ai2col/run".
Definition PROMPTS_TABLE_NAME : string := "Prompts".

Definition ai_getSystemPrompt (E : env) (promptName : string) : M json :=
  let* promptsTable := getTable PROMPTS_TABLE_NAME in
  let* query := selectRecordsAsync_fields promptsTable ["Name"; "Prompt"] in
  let* matchingRecords :=
    filterM (fun r => let* n := lift (getCellValueAsString E (Some r) "Name") in
                      ret (String.eqb n promptName)) query in
  match matchingRecords with
  | r :: _ => lift (getCellValue (Some r) "Prompt")
  | [] => ret JNull
  end.

Definition xml_tag (column value : string) : string :=
  "<" +:+ column +:+ ">" +:+ value +:+ "</" +:+ column +:+ ">".

Definition ai_body (output_column record_id table_id base_id model : string)
    (system_prompt : json) (user_msg : string) (openai_json_format : bool) : json :=
  JObj [("base_id", JStr base_id);
        ("table_id", JStr table_id);
        ("record_id", JStr record_id);
        ("output_column", JStr output_column);
        ("model", JStr model);
        ("system_prompt", system_prompt);
        ("user_msg", JStr user_msg);
        ("openai_json_format", JBool openai_json_format)].

(** The optional parameters [model = "gpt-4o"] and
    [openai_json_format = false] are [None] when the caller leaves them out. *)
Definition ai_generate (E : env) (input_columns : list string)
    (system_prompt_name output_column record_id table_id base_id : string)
    (model : option string) (openai_json_format : option bool) : M unit :=
  let model := default "gpt-4o" model in
  let openai_json_format := default false openai_json_format in
  let* system_prompt := ai_getSystemPrompt E system_prompt_name in
  if negb (truthy system_prompt)
  then throw (Error ("Failed to retrieve system prompt: " +:+ system_prompt_name))
  else
    let* table := getTable table_id in
    let* record := selectRecordAsync table record_id in
    let* fragments :=
      mapM (fun column => let* v := lift (getCellValueAsString E record column) in
                          ret (xml_tag column v)) input_columns in
    let user_msg := join nl fragments in
    let* p := fetch E (post AI_API_ENDPOINT
                         (ai_body output_column record_id table_id base_id model
                            system_prompt user_msg openai_json_format)) in
    let* _ := await p in
    ret tt.

(** ** translate_i18n

    As in mymap_airtable_api.js.  The second copy of the script in the
    repository has another wording of the prompt and sends no
    [openai_json_format]; its loop and its request are otherwise the same. *)

Definition TRANSLATE_API_ENDPOINT : string := "https://jobs.mymap.ai/jobs/ai2col/run".

(** An element of the [languages] argument: [{ column, name }]. *)
Record language : Type := { lang_column : string; lang_name : string }.

(** The template literal of the inner [getSystemPrompt(languageName)]. *)
Definition translate_getSystemPrompt (languageName : string) : string :=
  nl +:+
  "I am an SEO writing master in " +:+ languageName +:+
  ". I am here to translate a page content into " +:+ languageName +:+
  ". Make sure you read the entire content first, not just translate sentence by sentence. Write like native speakers." +:+ nl +:+
  nl +:+
  "Guideline" +:+ nl +:+
  "- The input is in json format. Translate values in all JSON keys. Do not change the keys" +:+ nl +:+
  "- Do not translate the " +:+ dquote +:+ "slug" +:+ dquote +:+ " key & value" +:+ nl +:+
  "- If the value for translation is html dom format, keep the html tags as original, only translate the content" +:+ nl +:+
  "- Output the JSON only, no extra message or code block." +:+ nl +:+
  "- Maintain SEO best practices and adapt content appropriately for a " +:+ languageName +:+ "-speaking audience." +:+ nl +:+
  "- keep original json key name, do not change key names in your output!" +:+ nl +:+
  "        ".

Definition translate_body (user_msg record_id table_id base_id model : string)
    (l : language) : json :=
  JObj [("base_id", JStr base_id);
        ("table_id", JStr table_id);
        ("record_id", JStr record_id);
        ("output_column", JStr (lang_column l));
        ("model", JStr model);
        ("system_prompt", JStr (translate_getSystemPrompt (lang_name l)));
        ("user_msg", JStr user_msg);
        ("openai_json_format", JBool true)].

Definition translateToLanguage (E : env) (user_msg record_id table_id base_id model : string)
    (l : language) : M unit :=
  let* p := fetch E (post TRANSLATE_API_ENDPOINT
                       (translate_body user_msg record_id table_id base_id model l)) in
  let* response := await p in
  if negb (ok response)
  then throw (Error ("HTTP error! status: " +:+ show (status response)))
  else ret tt.

Definition translate_i18n (E : env) (input_json_column : string) (languages : list language)
    (record_id table_id base_id : string) (model : option string) : M unit :=
  let model := default "gpt-4o" model in
  let* table := getTable table_id in
  let* record := selectRecordAsync table record_id in
  let* input_json := lift (getCellValue record input_json_column) in
  let user_msg := JSON_stringify E input_json in
  forM_ (translateToLanguage E user_msg record_id table_id base_id model) languages.

(** ** google_search *)

Definition SEARCH_API_ENDPOINT : string := "https://jobs.mymap.ai/job/keywords_search/run".

Definition search_body (keywords output_column record_id table_id base_id : string) : json :=
  JObj [("base_id", JStr base_id);
        ("table_id", JStr table_id);
        ("record_id", JStr record_id);
        ("output_column", JStr output_column);
        ("keywords", JStr keywords)].

Definition google_search (E : env)
    (input_column output_column record_id table_id base_id : string) : M unit :=
  let* table := getTable table_id in
  let* record := selectRecordAsync table record_id in
  let* keywords := lift (getCellValueAsString E record input_column) in
  if negb (truthy_str keywords)
  then throw (Error "No keywords found")
  else
    let* p := fetch E (post SEARCH_API_ENDPOINT
                         (search_body keywords output_column record_id table_id base_id)) in
    let* _ := await p in
    ret tt.

(** ** crawl_url_content *)

Definition CRAWL_URL_API_ENDPOINT : string := "https://jobs.mymap.ai/job/url2text/run".

Definition crawl_body (u : json) (output_column record_id table_id base_id : string) : json :=
  JObj [("base_id", JStr base_id);
        ("table_id", JStr table_id);
        ("record_id", JStr record_id);
        ("output_column", JStr output_column);
        ("url", u)].

Definition crawl_url_content (E : env)
    (input_column output_column record_id table_id base_id : string) : M unit :=
  let* table := getTable table_id in
  let* records := selectRecordsAsync_ids table [record_id] in
  let record := head records in
  let* u := lift (getCellValue record input_column) in
  if negb (truthy u)
  then throw (Error "No URL found")
  else
    let* p := fetch E (post CRAWL_URL_API_ENDPOINT
                         (crawl_body u output_column record_id table_id base_id)) in
    let* response := await p in
    if negb (ok response)
    then throw (Error ("API request failed with status " +:+ show (status response)))
    else ret tt.

(** ** sync_to_wordpress *)

Definition WP_API_ENDPOINT : string := "https://jobs.mymap.ai/job/wp_post_mymap/run".

(** [`post_id_${lang}`] *)
Definition post_id_column_of (lang : string) : string := "post_id_" +:+ lang.

Definition has_column (name : string) (cols : list column) : bool :=
  existsb (fun c => String.eqb (col_name c) name) cols.

(** [{ ...post_data, id: post_id || null, status: 'publish', author, ... }] *)
Definition wp_post (post_data post_id author_id : json) : json :=
  JObj (obj_set "meta" (JObj [])
       (obj_set "tags" (JArr [])
       (obj_set "categories" (JArr [])
       (obj_set "author" author_id
       (obj_set "status" (JStr "publish")
       (obj_set "id" (if truthy post_id then post_id else JNull)
       (spread post_data))))))).

Definition wp_body (post_data post_id post_id_en author_id : json)
    (lang record_id table_id base_id : string) : json :=
  JObj [("post", wp_post post_data post_id author_id);
        ("post_en_id", post_id_en);
        ("post_lang", JStr lang);
        ("base_id", JStr base_id);
        ("table_id", JStr table_id);
        ("record_id", JStr record_id);
        ("post_id_column", JStr (post_id_column_of lang))].

(** The field auto-provisioning step: look for the column, create it when it
    is missing and fetch the record again. *)
Definition provision_post_id (E : env) (table : nat) (record : option row_snapshot)
    (post_id_column record_id : string) : M (option row_snapshot) :=
  let* tableConfig := getConfigAsync table in
  if negb (has_column post_id_column tableConfig)
  then
    createFieldAsync E table post_id_column "number" ;;
    selectRecordAsync table record_id
  else ret record.

(** The rest of the script, from [const post_id = ...] on: read the cells,
    test content and author, build the post and send it. *)
Definition sync_send (E : env) (record : option row_snapshot)
    (lang author_id_column record_id table_id base_id : string) : M unit :=
  let post_id_column := post_id_column_of lang in
  let* post_id := lift (getCellValue record post_id_column) in
  let* post_data := lift (getCellValue record lang) in
  let* post_id_en := lift (getCellValue record "post_id_en") in
  let* author_id := lift (getCellValue record author_id_column) in
  if negb (truthy post_data) then throw (Error "No content found")
  else if negb (truthy author_id) then throw (Error "No author ID found")
  else
    match JSON_parse E post_data with
    | None => throw (SyntaxError "Unexpected token in JSON")
    | Some JNull => throw (TypeError "Cannot convert undefined or null to object")
    | Some post_data =>
        let* p := fetch E {| url := WP_API_ENDPOINT; method := "POST";
                             headers := [("Content-Type", "application/json")];
                             body := wp_body post_data post_id post_id_en author_id
                                       lang record_id table_id base_id |} in
        let* response := await p in
        if negb (ok response)
        then throw (Error ("API request failed with status " +:+ show (status response)))
        else ret tt
    end.

Definition sync_to_wordpress (E : env)
    (lang author_id_column record_id table_id base_id : string) : M unit :=
  let* table := getTable table_id in
  let* record := selectRecordAsync table record_id in
  let post_id_column := post_id_column_of lang in
  let* record := provision_post_id E table record post_id_column record_id in
  sync_send E record lang author_id_column record_id table_id base_id.

(** ** The dispatcher variants

    Each script is one instance of the dispatch pattern.  A [call] is a
    variant together with the arguments it is invoked with. *)
Inductive call : Type :=
| CreateMapImage (tpl_column prompt_column output_column record_id table_id base_id : string)
| AiGenerate (input_columns : list string)
    (system_prompt_name output_column record_id table_id base_id : string)
    (model : option string) (openai_json_format : option bool)
| TranslateI18n (input_json_column : string) (languages : list language)
    (record_id table_id base_id : string) (model : option string)
| GoogleSearch (input_column output_column record_id table_id base_id : string)
| CrawlUrlContent (input_column output_column record_id table_id base_id : string)
| SyncToWordpress (lang author_id_column record_id table_id base_id : string).

Definition run (E : env) (c : call) : M unit :=
  match c with
  | CreateMapImage tc pc oc r t b => create_map_image E tc pc oc r t b
  | AiGenerate ics sp oc r t b m j => ai_generate E ics sp oc r t b m j
  | TranslateI18n ic ls r t b m => translate_i18n E ic ls r t b m
  | GoogleSearch ic oc r t b => google_search E ic oc r t b
  | CrawlUrlContent ic oc r t b => crawl_url_content E ic oc r t b
  | SyncToWordpress lang ac r t b => sync_to_wordpress E lang ac r t b
  end.

Definition record_id_of (c : call) : string :=
  match c with
  | CreateMapImage _ _ _ r _ _ | AiGenerate _ _ _ r _ _ _ _ | TranslateI18n _ _ r _ _ _
  | GoogleSearch _ _ r _ _ | CrawlUrlContent _ _ r _ _ | SyncToWordpress _ _ r _ _ => r
  end.

Definition table_id_of (c : call) : string :=
  match c with
  | CreateMapImage _ _ _ _ t _ | AiGenerate _ _ _ _ t _ _ _ | TranslateI18n _ _ _ t _ _
  | GoogleSearch _ _ _ t _ | CrawlUrlContent _ _ _ t _ | SyncToWordpress _ _ _ t _ => t
  end.


(** The columns a call takes its job inputs from. *)
Definition input_fields (c : call) : list string :=
  match c with
  | CreateMapImage tc pc _ _ _ _ => [tc; pc]
  | AiGenerate ics _ _ _ _ _ _ _ => ics
  | TranslateI18n ic _ _ _ _ _ => [ic]
  | GoogleSearch ic _ _ _ _ => [ic]
  | CrawlUrlContent ic _ _ _ _ => [ic]
  | SyncToWordpress lang ac _ _ _ => [lang; ac]
  end.

(** The input columns whose value the script tests ([if (!x) throw ...])
    before it builds the request. *)
Definition validated_fields (c : call) : list string :=
  match c with
  | CreateMapImage tc pc _ _ _ _ => [tc; pc]
  | GoogleSearch ic _ _ _ _ => [ic]
  | CrawlUrlContent ic _ _ _ _ => [ic]
  | SyncToWordpress lang ac _ _ _ => [lang; ac]
  | AiGenerate _ _ _ _ _ _ _ _ | TranslateI18n _ _ _ _ _ _ => []
  end.

(** The messages of the [Error]s those tests throw. *)
Definition validation_messages (c : call) : list string :=
  match c with
  | CreateMapImage _ _ _ _ _ _ => ["Missing template or prompt"]
  | GoogleSearch _ _ _ _ _ => ["No keywords found"]
  | CrawlUrlContent _ _ _ _ _ => ["No URL found"]
  | SyncToWordpress _ _ _ _ _ => ["No content found"; "No author ID found"]
  | AiGenerate _ _ _ _ _ _ _ _ | TranslateI18n _ _ _ _ _ _ => []
  end.

(** The columns a call reads from its record and does not provide itself. *)
Definition read_fields (c : call) : list string :=
  match c with
  | SyncToWordpress lang ac _ _ _ => [lang; "post_id_en"; ac]
  | _ => input_fields c
  end.

(** Whether the script looks at [response.ok], and the text its [Error]
    starts with when the status is not a success. *)
Definition checks_status (c : call) : bool :=
  match c with
  | CreateMapImage _ _ _ _ _ _ | TranslateI18n _ _ _ _ _ _
  | CrawlUrlContent _ _ _ _ _ | SyncToWordpress _ _ _ _ _ => true
  | AiGenerate _ _ _ _ _ _ _ _ | GoogleSearch _ _ _ _ _ => false
  end.

Definition status_error_prefix (c : call) : string :=
  match c with
  | TranslateI18n _ _ _ _ _ _ => "HTTP error! status: "
  | _ => "API request failed with status "
  end.



(** ** Reading the store without running a script *)

Definition find_row (record_id : string) (t : table) : option row :=
  find (fun r => bool_decide (row_id r = record_id)) (rows t).

(** The record a script sees for [(table_id, record_id)] in a given world. *)
Definition current_record (w : world) (table_id record_id : string) : option row_snapshot :=
  match find_table table_id (base w) with
  | Some (_, t) => snapshot (field_names t) <$> find_row record_id t
  | None => None
  end.

Definition table_of (w : world) (table_id : string) : option table :=
  snd <$> find_table table_id (base w).

(** The value of a cell as [getCellValue] returns it. *)
Definition cell (rc : row_snapshot) (f : string) : json := default JNull (rec_cells rc !! f).

(** The value of a cell as [getCellValueAsString] returns it. *)
Definition cell_string (E : env) (rc : row_snapshot) (f : string) : string :=
  from_option (format_cell E) "" (rec_cells rc !! f).

(** The store lets the sync job create its [post_id_<lang>] field. *)
Definition store_accepts (E : env) (w : world) (c : call) : Prop :=
  match c with
  | SyncToWordpress lang _ _ tid _ =>
      forall t, table_of w tid = Some t ->
                create_field_error E (tbl_id t) (post_id_column_of lang) "number" = None
  | _ => True
  end.

(** The world once [createFieldAsync] has added column [name] to table [h]. *)
Definition with_field (w : world) (h : nat) (t : table) (name type : string) : world :=
  {| base := <[h := add_column {| col_name := name; col_type := type |} t]> (base w);
     log := log w ++ [CreateField (tbl_id t) name type] |}.

(** A cell of a stored row, read as a string. *)
Definition row_string (E : env) (r : row) (f : string) : string :=
  from_option (format_cell E) "" (row_cells r !! f).

(** ** Specification vocabulary *)

(** [m] keeps the relation [R] between the world before and after. *)
Definition preserves (R : relation world) {A} (m : M A) : Prop :=
  forall w, R w (snd (m w)).

(** The world is left as it was. *)
Definition unchanged : relation world := eq.

(** Only events satisfying [P] are added to the log. *)
Definition extends (P : event -> Prop) : relation world :=
  fun w w' => exists evs, log w' = log w ++ evs /\ Forall P evs.

(** The store is left as it was and only requests are added to the log. *)
Definition network_only : relation world :=
  fun w w' => base w' = base w /\ exists evs, log w' = log w ++ evs /\ created_fields evs = [].

(** No request is added to the log. *)
Definition quiet : relation world := fun w w' => fetches (log w') = fetches (log w).




(** The shape shared by the scripts that test [response.ok]: post, await,
    throw [pre] followed by the status unless the status is a success. *)
Definition checked_post (E : env) (pre : string) (rq : request) : M unit :=
  let* p := fetch E rq in
  let* response := await p in
  if negb (ok response)
  then throw (Error (pre +:+ show (status response)))
  else ret tt.

(** How an awaited promise ends such a call. *)
Definition settle_outcome (pre : string) (p : promise) : outcome unit :=
  match p with
  | Settles _ (Fulfilled r) =>
      if ok r then Ok tt else Throw (Error (pre +:+ show (status r)))
  | Settles _ (Rejected e) => Throw e
  | NeverSettles => Never
  end.

(** The world once [rq] has been issued. *)
Definition sent (w : world) (rq : request) : world :=
  {| base := base w; log := log w ++ [Fetch rq] |}.

(** The request [translateToLanguage] sends for one language. *)
Definition translate_post (um rid tid bid model : string) (l : language) : request :=
  post TRANSLATE_API_ENDPOINT (translate_body um rid tid bid model l).

(** The same, for [translate_i18n] on a record [rc]. *)
Definition translate_request (E : env) (rc : row_snapshot) (ic rid tid bid : string)
    (m : option string) (l : language) : request :=
  translate_post (JSON_stringify E (cell rc ic)) rid tid bid (default "gpt-4o" m) l.

(** For the map image the answer has to beat the timer. *)
Definition arrives_in_time (c : call) (t : Z) : Prop :=
  match c with
  | CreateMapImage _ _ _ _ _ _ => t < TIMEOUT
  | _ => True
  end.

(** [m] throws [pre] followed by the status as soon as one of the requests
    it issues is answered, in time, with a status that is not a success. *)
Definition raises_on_status (E : env) (pre : string) (in_time : Z -> Prop) (m : M unit) : Prop :=
  forall w i rq t r,
    fetches (log (snd (m w))) !! (length (fetches (log w)) + i)%nat = Some rq ->
    server E (length (fetches (log w)) + i) rq = Settles t (Fulfilled r) ->
    ok r = false -> in_time t ->
    fst (m w) = Throw (Error (pre +:+ show (status r))).

(** ** Three readings that the scripts do not meet

    Each is a sentence about all six variants; the scripts meet it for some
    variants only. *)

(** Every input column is required: an empty cell in any of them makes the
    call throw without issuing a request. *)
Definition rejects_empty_inputs (E : env) (w : world) (c : call) : Prop :=
  forall rc f,
    current_record w (table_id_of c) (record_id_of c) = Some rc ->
    f ∈ input_fields c ->
    rec_cells rc !! f = None ->
    exists e w', run E c w = (Throw e, w') /\ fetches (log w') = fetches (log w).


(** Every variant fails when a request it issued is answered with a status
    that is not a success. *)
Definition fails_on_bad_status (E : env) (w : world) (c : call) : Prop :=
  forall i rq t r,
    fetches (log (snd (run E c w))) !! (length (fetches (log w)) + i)%nat = Some rq ->
    server E (length (fetches (log w)) + i) rq = Settles t (Fulfilled r) ->
    ok r = false ->
    arrives_in_time c t ->
    exists e, fst (run E c w) = Throw e.

(** ** Vocabulary for whole runs *)

(** The endpoint each script posts to.  [ai_generate] and [translate_i18n]
    reach the same job under two paths: [/job/ai2col/run] and
    [/jobs/ai2col/run]. *)
Definition endpoint_of (c : call) : string :=
  match c with
  | CreateMapImage _ _ _ _ _ _ => CREATE_MAP_API_ENDPOINT
  | AiGenerate _ _ _ _ _ _ _ _ => AI_API_ENDPOINT
  | TranslateI18n _ _ _ _ _ _ => TRANSLATE_API_ENDPOINT
  | GoogleSearch _ _ _ _ _ => SEARCH_API_ENDPOINT
  | CrawlUrlContent _ _ _ _ _ => CRAWL_URL_API_ENDPOINT
  | SyncToWordpress _ _ _ _ _ => WP_API_ENDPOINT
  end.

(** The headers each script sets: only the sync job sets one. *)
Definition headers_of (c : call) : list (string * string) :=
  match c with
  | SyncToWordpress _ _ _ _ _ => [("Content-Type", "application/json")]
  | _ => []
  end.

Definition well_addressed (c : call) (rq : request) : Prop :=
  url rq = endpoint_of c /\ method rq = "POST" /\ headers rq = headers_of c.

Definition event_well_addressed (c : call) (ev : event) : Prop :=
  match ev with
  | Fetch rq => well_addressed c rq
  | CreateField _ _ _ => True
  end.

(** [m] issues no request and always settles: it returns or throws. *)
Definition reads {A} (m : M A) : Prop :=
  forall w, fetches (log (snd (m w))) = fetches (log w) /\ fst (m w) <> Never.

(** [m] adds requests [rqs] to the log and ends with an outcome [o] such
    that [Q n rqs o], where [n] requests had been issued before. *)
Definition trace_spec (Q : nat -> list request -> outcome unit -> Prop) (m : M unit) : Prop :=
  forall w, exists rqs,
    fetches (log (snd (m w))) = fetches (log w) ++ rqs /\
    Q (length (fetches (log w))) rqs (fst (m w)).

(** How an awaited promise ends a script that does not look at the
    response. *)
Definition unchecked_outcome (p : promise) : outcome unit :=
  match p with
  | Settles _ (Fulfilled _) => Ok tt
  | Settles _ (Rejected e) => Throw e
  | NeverSettles => Never
  end.

(** How the answer to its request ends a call of each single-request
    script. *)
Definition answer_outcome (E : env) (c : call) (p : promise) : outcome unit :=
  match c with
  | CreateMapImage _ _ _ _ _ _ =>
      settle_outcome "API request failed with status "
        (Promise_race E p TIMEOUT timeout_error)
  | AiGenerate _ _ _ _ _ _ _ _ | GoogleSearch _ _ _ _ _ => unchecked_outcome p
  | _ => settle_outcome (status_error_prefix c) p
  end.

(** The [i]-th request is answered with a success. *)
Definition succeeded (E : env) (i : nat) (rq : request) : Prop :=
  exists t r, server E i rq = Settles t (Fulfilled r) /\ ok r = true.

(** One request, and the outcome its answer decides. *)
Definition single_shape (E : env) (f : promise -> outcome unit)
    (n : nat) (rqs : list request) (o : outcome unit) : Prop :=
  exists rq, rqs = [rq] /\ o = f (server E n rq).

(** The translation loop over [ls] with requests [req]: either every
    language is requested and answered with a success and the loop returns,
    or the loop ends at the first language [j] whose answer is not a
    success, with the outcome that answer gives. *)
Definition batch_shape (E : env) (req : language -> request) (ls : list language)
    (n : nat) (rqs : list request) (o : outcome unit) : Prop :=
  (o = Ok tt /\ rqs = req <$> ls /\
   forall i l, ls !! i = Some l -> succeeded E (n + i) (req l))
  \/
  (exists j l,
     ls !! j = Some l /\ rqs = req <$> take (S j) ls /\
     (forall i l', (i < j)%nat -> ls !! i = Some l' -> succeeded E (n + i) (req l')) /\
     o = settle_outcome "HTTP error! status: " (server E (n + j) (req l)) /\
     o <> Ok tt).

(** The shape of every run: the call throws before it has sent anything,
    or it is a single request (a batch, for the translation) as above. *)
Definition run_shape (E : env) (c : call) (n : nat) (rqs : list request)
    (o : outcome unit) : Prop :=
  (rqs = [] /\ exists e, o = Throw e)
  \/
  match c with
  | TranslateI18n _ ls rid tid bid m =>
      exists um, batch_shape E (translate_post um rid tid bid (default "gpt-4o" m)) ls n rqs o
  | _ => single_shape E (answer_outcome E c) n rqs o
  end.

(** The most requests a call can issue. *)
Definition max_requests (c : call) : nat :=
  match c with
  | TranslateI18n _ ls _ _ _ _ => length ls
  | _ => 1%nat
  end.

(** The record store and the fields asked for are as before. *)
Definition store_kept : relation world :=
  fun w w' => base w' = base w /\ created_fields (log w') = created_fields (log w).

(** Whether a script ever asks the store for a change. *)
Definition provisions (c : call) : bool :=
  match c with
  | SyncToWordpress _ _ _ _ _ => true
  | _ => false
  end.

(** The members the sync job writes into the post itself, after the spread
    of the content: [id: post_id || null, status: 'publish', author, ...]. *)
Definition wp_explicit (post_id author_id : json) : list (string * json) :=
  [("id", if truthy post_id then post_id else JNull);
   ("status", JStr "publish");
   ("author", author_id);
   ("categories", JArr []);
   ("tags", JArr []);
   ("meta", JObj [])].

(** The request of the sync job. *)
Definition wp_request (post_data post_id post_id_en author_id : json)
    (lang record_id table_id base_id : string) : request :=
  {| url := WP_API_ENDPOINT; method := "POST";
     headers := [("Content-Type", "application/json")];
     body := wp_body post_data post_id post_id_en author_id lang record_id table_id base_id |}.

(** Whether a script reads a cell of its record whatever its arguments:
    [ai_generate] reads one per input column, so none for an empty list. *)
Definition always_reads_record (c : call) : bool :=
  match c with
  | AiGenerate _ _ _ _ _ _ _ _ => false
  | _ => true
  end.

(** ** The second copy of translate_i18n

    The repository holds an earlier copy of the scripts whose
    [translate_i18n] words its prompt differently and sends no
    [openai_json_format]; its other scripts are the ones above. *)
Module Part000.

Definition getSystemPrompt (languageName : string) : string :=
  nl +:+
  "I am an SEO writing master in " +:+ languageName +:+
  ". I am here to translate a page content into " +:+ languageName +:+
  ". Make sure you read the entire content first, not just translate sentence by sentence. Write like native speakers." +:+ nl +:+
  nl +:+
  "Guideline" +:+ nl +:+
  "- Do not translate the " +:+ dquote +:+ "slug" +:+ dquote +:+ " key" +:+ nl +:+
  "- The input is JSON. The values in keys such as " +:+ dquote +:+ "What_is" +:+ dquote +:+
  ", " +:+ dquote +:+ "Why_use" +:+ dquote +:+ ", " +:+ dquote +:+ "How_to_use" +:+ dquote +:+
  ", " +:+ dquote +:+ "meta" +:+ dquote +:+
  " are already DOM. Make sure you only translate the values in the HTML tag." +:+ nl +:+
  "- Translate values in all JSON keys." +:+ nl +:+
  "- Output the JSON only, no extra message or code block." +:+ nl +:+
  "- Maintain SEO best practices and adapt content appropriately for a " +:+ languageName +:+ "-speaking audience." +:+ nl +:+
  "- keep original json key name, do not change key names in your output!" +:+ nl +:+
  "        ".

Definition translate_body (user_msg record_id table_id base_id model : string)
    (l : language) : json :=
  JObj [("base_id", JStr base_id);
        ("table_id", JStr table_id);
        ("record_id", JStr record_id);
        ("output_column", JStr (lang_column l));
        ("model", JStr model);
        ("system_prompt", JStr (getSystemPrompt (lang_name l)));
        ("user_msg", JStr user_msg)].

Definition translateToLanguage (E : env) (user_msg record_id table_id base_id model : string)
    (l : language) : M unit :=
  let* p := fetch E (post TRANSLATE_API_ENDPOINT
                       (translate_body user_msg record_id table_id base_id model l)) in
  let* response := await p in
  if negb (ok response)
  then throw (Error ("HTTP error! status: " +:+ show (status response)))
  else ret tt.

Definition translate_i18n (E : env) (input_json_column : string) (languages : list language)
    (record_id table_id base_id : string) (model : option string) : M unit :=
  let model := default "gpt-4o" model in
  let* table := getTable table_id in
  let* record := selectRecordAsync table record_id in
  let* input_json := lift (getCellValue record input_json_column) in
  let user_msg := JSON_stringify E input_json in
  forM_ (translateToLanguage E user_msg record_id table_id base_id model) languages.

(** The request it sends for one language. *)
Definition translate_post (um rid tid bid model : string) (l : language) : request :=
  post TRANSLATE_API_ENDPOINT (translate_body um rid tid bid model l).

End Part000.

(** What the test of an input finds missing: [!value], on the cell value,
    or on its string for [google_search]. *)
Definition falsy_input (E : env) (c : call) (rc : row_snapshot) (f : string) : Prop :=
  match c with
  | GoogleSearch _ _ _ _ _ => cell_string E rc f = ""
  | _ => truthy (cell rc f) = false
  end.

(** The message of the test that fails: [sync_to_wordpress] tests the
    content before the author. *)
Definition missing_input_message (c : call) (rc : row_snapshot) : string :=
  match c with
  | CreateMapImage _ _ _ _ _ _ => "Missing template or prompt"
  | GoogleSearch _ _ _ _ _ => "No keywords found"
  | CrawlUrlContent _ _ _ _ _ => "No URL found"
  | SyncToWordpress lang _ _ _ _ =>
      if truthy (cell rc lang) then "No author ID found" else "No content found"
  | AiGenerate _ _ _ _ _ _ _ _ | TranslateI18n _ _ _ _ _ _ => ""
  end.
(** ** A small base to run the scripts on *)
Module Demo.

Definition content : string :=
  "{" +:+ dquote +:+ "title" +:+ dquote +:+ ":" +:+ dquote +:+ "Hello" +:+ dquote +:+ "}".

Fixpoint stringify (v : json) : string :=
  match v with
  | JNull => "null"
  | JBool b => if b then "true" else "false"
  | JNum n => pretty n
  | JStr s => dquote +:+ s +:+ dquote
  | JArr items => "[" +:+ join "," (map stringify items) +:+ "]"
  | JObj o =>
      "{" +:+ join "," (map (fun kv => dquote +:+ fst kv +:+ dquote +:+ ":" +:+ stringify (snd kv)) o)
      +:+ "}"
  end.

Definition parse (v : json) : option json :=
  match v with
  | JStr s =>
      if String.eqb s content then Some (JObj [("title", JStr "Hello")])
      else if String.eqb s "null" then Some JNull
      else None
  | _ => None
  end.

Definition render (v : json) : string :=
  match v with
  | JStr s => s
  | JNum n => pretty n
  | _ => stringify v
  end.

(** An environment whose remote side answers by [srv]. *)
Definition env_of (srv : nat -> request -> promise) : env :=
  {| format_cell := render;
     JSON_stringify := stringify;
     JSON_parse := parse;
     server := srv;
     timer_first_on_tie := true;
     create_field_error := fun _ _ _ => None |}.

(** The remote side answers every request with [code] after [ms]. *)
Definition answering (ms code : Z) : env :=
  env_of (fun _ _ => Settles ms (Fulfilled {| status := code |})).

(** The second request (and only it) is answered with a 503. *)
Definition second_fails : env :=
  env_of (fun n _ => Settles 10 (Fulfilled {| status := if Nat.eqb n 1 then 503 else 200 |})).

Definition col (n : string) : column := {| col_name := n; col_type := "singleLineText" |}.

Definition row1 : row :=
  {| row_id := "rec1";
     row_cells := list_to_map
       [("Template", JStr "castle"); ("Prompt", JStr "sunset");
        ("Keywords", JStr "rocq prover"); ("Link", JStr "https://example.org");
        ("Topic", JStr "maps"); ("Page", JStr content);
        ("en", JStr content); ("Author", JNum 7)] |}.

(** A record with no cell filled in. *)
Definition row2 : row := {| row_id := "rec2"; row_cells := ∅ |}.

Definition posts : table :=
  {| tbl_id := "tblPosts"; tbl_name := "Posts";
     columns := col <$> ["Template"; "Prompt"; "Map"; "Keywords"; "Results"; "Link";
                         "Text"; "Topic"; "Summary"; "Page"; "fr"; "de"; "en"; "Author";
                         "post_id_en"];
     rows := [row1; row2] |}.

Definition prompts : table :=
  {| tbl_id := "tblPrompts"; tbl_name := "Prompts";
     columns := col <$> ["Name"; "Prompt"];
     rows := [ {| row_id := "recP1";
                  row_cells := list_to_map
                    [("Name", JStr "summarise"); ("Prompt", JStr "You summarise.")] |} ] |}.

Definition world0 : world := {| base := [posts; prompts]; log := [] |}.

Definition snap1 : row_snapshot := snapshot (field_names posts) row1.
Definition snap2 : row_snapshot := snapshot (field_names posts) row2.

Definition fr : language := {| lang_column := "fr"; lang_name := "French" |}.
Definition de : language := {| lang_column := "de"; lang_name := "German" |}.

End Demo.

(** ** More of the sample base: silent and failing remote sides, prompts of
    the same name, records with unusable content *)
Module Demo2.

(** The remote side never answers. *)
Definition silent : env := Demo.env_of (fun _ _ => NeverSettles).

(** Every request is rejected. *)
Definition offline : env :=
  Demo.env_of (fun _ _ => Settles 5 (Rejected (NetworkError "Failed to fetch"))).

(** The store lets no field be created. *)
Definition locked : env :=
  {| format_cell := Demo.render;
     JSON_stringify := Demo.stringify;
     JSON_parse := Demo.parse;
     server := fun _ _ => Settles 350 (Fulfilled {| status := 200 |});
     timer_first_on_tie := true;
     create_field_error := fun _ _ _ => Some (SdkError "Not allowed to create fields") |}.

(** Content that is no JSON, under the column "fr". *)
Definition row3 : row :=
  {| row_id := "rec3";
     row_cells := list_to_map [("fr", JStr "Bonjour"); ("Author", JNum 7)] |}.

(** An author id of 0, and the empty string as link. *)
Definition row4 : row :=
  {| row_id := "rec4";
     row_cells := list_to_map [("en", JStr Demo.content); ("Author", JNum 0);
                               ("Link", JStr "")] |}.

Definition posts : table :=
  {| tbl_id := "tblPosts"; tbl_name := "Posts";
     columns := columns Demo.posts;
     rows := [Demo.row1; Demo.row2; row3; row4] |}.

Definition other_prompt : row :=
  {| row_id := "recP0";
     row_cells := list_to_map [("Name", JStr "outline"); ("Prompt", JStr "You outline.")] |}.

Definition first_prompt : row :=
  {| row_id := "recP1";
     row_cells := list_to_map [("Name", JStr "summarise"); ("Prompt", JStr "Be brief.")] |}.

Definition second_prompt : row :=
  {| row_id := "recP2";
     row_cells := list_to_map [("Name", JStr "summarise"); ("Prompt", JStr "Be thorough.")] |}.

(** A prompt whose text has been left empty. *)
Definition blank_prompt : row :=
  {| row_id := "recP3"; row_cells := list_to_map [("Name", JStr "review")] |}.

Definition review_prompt : row :=
  {| row_id := "recP4";
     row_cells := list_to_map [("Name", JStr "review"); ("Prompt", JStr "You review.")] |}.

Definition prompts : table :=
  {| tbl_id := "tblPrompts"; tbl_name := "Prompts";
     columns := Demo.col <$> ["Name"; "Prompt"];
     rows := [other_prompt; first_prompt; second_prompt; blank_prompt; review_prompt] |}.

Definition world1 : world := {| base := [posts; prompts]; log := [] |}.

Definition snap1 : row_snapshot := snapshot (field_names posts) Demo.row1.
Definition snap3 : row_snapshot := snapshot (field_names posts) row3.
Definition snap4 : row_snapshot := snapshot (field_names posts) row4.

(** A checkbox left unchecked as template, and as link. *)
Definition row5 : row :=
  {| row_id := "rec5";
     row_cells := list_to_map [("Template", JBool false); ("Prompt", JStr "sunset");
                               ("Link", JBool false)] |}.

Definition flagged_posts : table :=
  {| tbl_id := "tblPosts"; tbl_name := "Posts";
     columns := columns Demo.posts;
     rows := [row4; row5] |}.

Definition world2 : world := {| base := [flagged_posts; prompts]; log := [] |}.

Definition snap5 : row_snapshot := snapshot (field_names flagged_posts) row5.

End Demo2.
(** * Properties *)

(** ** Running the monad *)

Lemma bind_Ok {A B} (m : M A) (k : A -> M B) w a w' :
  m w = (Ok a, w') -> bind m k w = k a w'.
Proof. unfold bind. now intros ->. Qed.

Lemma bind_Throw {A B} (m : M A) (k : A -> M B) w e w' :
  m w = (Throw e, w') -> bind m k w = (Throw e, w').
Proof. unfold bind. now intros ->. Qed.

Lemma bind_Never {A B} (m : M A) (k : A -> M B) w w' :
  m w = (Never, w') -> bind m k w = (Never, w').
Proof. unfold bind. now intros ->. Qed.

Lemma bind_lift_inr {A B} (a : A) (k : A -> M B) w : bind (lift (inr a)) k w = k a w.
Proof. reflexivity. Qed.

(** ** Reading the store *)

Lemma find_table_lookup x b h t : find_table x b = Some (h, t) -> b !! h = Some t.
Proof. intros H. apply list_find_Some in H. tauto. Qed.

Lemma getTable_found x w h t : find_table x (base w) = Some (h, t) -> getTable x w = (Ok h, w).
Proof. unfold getTable. now intros ->. Qed.

Lemma the_table_found h w t : base w !! h = Some t -> the_table h w = (Ok t, w).
Proof. unfold the_table. now intros ->. Qed.

Lemma selectRecordAsync_found h rid w t :
  base w !! h = Some t ->
  selectRecordAsync h rid w = (Ok (snapshot (field_names t) <$> find_row rid t), w).
Proof.
  intros H. unfold selectRecordAsync.
  rewrite (bind_Ok _ _ _ _ _ (the_table_found _ _ _ H)). reflexivity.
Qed.

Lemma selectRecordsAsync_ids_found h rid w t :
  base w !! h = Some t ->
  selectRecordsAsync_ids h [rid] w =
    (Ok (option_list (snapshot (field_names t) <$> find_row rid t)), w).
Proof.
  intros H. unfold selectRecordsAsync_ids.
  rewrite (bind_Ok _ _ _ _ _ (the_table_found _ _ _ H)).
  unfold ret, find_row. simpl. now destruct (find _ (rows t)).
Qed.

Lemma current_record_inv w tid rid rc :
  current_record w tid rid = Some rc ->
  exists h t r, find_table tid (base w) = Some (h, t) /\ find_row rid t = Some r /\
                rc = snapshot (field_names t) r.
Proof.
  unfold current_record. destruct (find_table tid (base w)) as [[h t]|]; [|discriminate].
  destruct (find_row rid t) as [r|] eqn:Hr; [|discriminate].
  intros [= <-]. now exists h, t, r.
Qed.

(** [getTable] followed by [selectRecordAsync], as five scripts begin. *)
Lemma open_record {B} w tid rid rc (k : option row_snapshot -> M B) :
  current_record w tid rid = Some rc ->
  (let* table := getTable tid in
   let* record := selectRecordAsync table rid in k record) w = k (Some rc) w.
Proof.
  intros (h & t & r & Ht & Hr & ->)%current_record_inv.
  rewrite (bind_Ok _ _ _ _ _ (getTable_found _ _ _ _ Ht)).
  rewrite (bind_Ok _ _ _ _ _ (selectRecordAsync_found _ rid _ _ (find_table_lookup _ _ _ _ Ht))).
  now rewrite Hr.
Qed.

(** [getTable] followed by [selectRecordsAsync({ recordIds: [id] })]. *)
Lemma open_records {B} w tid rid rc (k : list row_snapshot -> M B) :
  current_record w tid rid = Some rc ->
  (let* table := getTable tid in
   let* records := selectRecordsAsync_ids table [rid] in k records) w = k [rc] w.
Proof.
  intros (h & t & r & Ht & Hr & ->)%current_record_inv.
  rewrite (bind_Ok _ _ _ _ _ (getTable_found _ _ _ _ Ht)).
  rewrite (bind_Ok _ _ _ _ _ (selectRecordsAsync_ids_found _ rid _ _ (find_table_lookup _ _ _ _ Ht))).
  now rewrite Hr.
Qed.

Lemma getCellValue_loaded rc f :
  f ∈ rec_fields rc -> getCellValue (Some rc) f = inr (cell rc f).
Proof. intros H. unfold getCellValue. now rewrite bool_decide_eq_true_2. Qed.

Lemma getCellValueAsString_loaded E rc f :
  f ∈ rec_fields rc -> getCellValueAsString E (Some rc) f = inr (cell_string E rc f).
Proof. intros H. unfold getCellValueAsString. now rewrite bool_decide_eq_true_2. Qed.

Lemma cell_empty rc f : rec_cells rc !! f = None -> cell rc f = JNull.
Proof. unfold cell. now intros ->. Qed.

Lemma cell_string_empty E rc f : rec_cells rc !! f = None -> cell_string E rc f = "".
Proof. unfold cell_string. now intros ->. Qed.

Lemma fetches_app l1 l2 : fetches (l1 ++ l2) = fetches l1 ++ fetches l2.
Proof. unfold fetches. apply omap_app. Qed.

Lemma created_fields_app l1 l2 : created_fields (l1 ++ l2) = created_fields l1 ++ created_fields l2.
Proof. unfold created_fields. apply omap_app. Qed.

Lemma fetch_run E rq w :
  fetch E rq w = (Ok (server E (length (fetches (log w))) rq),
                  {| base := base w; log := log w ++ [Fetch rq] |}).
Proof. reflexivity. Qed.


(** ** create_map_image: the timeout race *)

Lemma timeout_error_message : timeout_error = Error "Request timed out after 120 seconds".
Proof. reflexivity. Qed.

Lemma ok_iff r : ok r = true <-> 200 <= status r <= 299.
Proof. unfold ok. rewrite andb_true_iff, !Z.leb_le. tauto. Qed.

(** Once both inputs are present, the script issues its request and waits
    for the race. *)
Lemma create_map_image_issues E w tc pc oc rid tid bid rc :
  current_record w tid rid = Some rc ->
  tc ∈ rec_fields rc -> pc ∈ rec_fields rc ->
  truthy (cell rc tc) = true -> truthy (cell rc pc) = true ->
  let rq := post CREATE_MAP_API_ENDPOINT
              (map_image_body (cell rc tc) (cell rc pc) oc rid tid bid) in
  create_map_image E tc pc oc rid tid bid w =
    (let* response :=
       await (Promise_race E (server E (length (fetches (log w))) rq) TIMEOUT timeout_error) in
     if negb (ok response)
     then throw (Error ("API request failed with status " +:+ show (status response)))
     else ret tt) {| base := base w; log := log w ++ [Fetch rq] |}.
Proof.
  intros Hrc Htc Hpc Ht Hp rq. unfold create_map_image.
  rewrite (open_records _ _ _ _ _ Hrc). cbn [head].
  rewrite (getCellValue_loaded _ _ Htc), bind_lift_inr.
  rewrite (getCellValue_loaded _ _ Hpc), bind_lift_inr.
  rewrite Ht, Hp. cbn [negb orb].
  now rewrite (bind_Ok _ _ _ _ _ (fetch_run E _ w)).
Qed.

(** C4. In [create_map_image], whose request is raced against a timer of
    [TIMEOUT] = 120000 ms: when the remote side never answers, or answers
    only after the timer has fired, the call fails with the error "Request
    timed out after 120 seconds"; when the answer comes first and has a 2xx
    status the call returns normally, however close to the deadline.  An
    answer due in the same millisecond as the timer comes first or second as
    the host runs the two callbacks. *)
Theorem create_map_image_timeout_race E w tc pc oc rid tid bid rc :
  current_record w tid rid = Some rc ->
  tc ∈ rec_fields rc -> pc ∈ rec_fields rc ->
  truthy (cell rc tc) = true -> truthy (cell rc pc) = true ->
  let rq := post CREATE_MAP_API_ENDPOINT
              (map_image_body (cell rc tc) (cell rc pc) oc rid tid bid) in
  let p := server E (length (fetches (log w))) rq in
  let w' := {| base := base w; log := log w ++ [Fetch rq] |} in
  ((p = NeverSettles \/
    exists t s, p = Settles t s /\
                (TIMEOUT < t \/ t = TIMEOUT /\ timer_first_on_tie E = true)) ->
   create_map_image E tc pc oc rid tid bid w =
     (Throw (Error "Request timed out after 120 seconds"), w'))
  /\
  (forall t r, p = Settles t (Fulfilled r) ->
               t < TIMEOUT \/ t = TIMEOUT /\ timer_first_on_tie E = false ->
               200 <= status r <= 299 ->
   create_map_image E tc pc oc rid tid bid w = (Ok tt, w')).
Proof.
  intros Hrc Htc Hpc Ht Hp rq p w'.
  pose proof (create_map_image_issues E w tc pc oc rid tid bid rc Hrc Htc Hpc Ht Hp) as Hrun.
  cbv zeta in Hrun. fold rq in Hrun. fold p in Hrun. fold w' in Hrun.
  split.
  - intros [Hn | (t & s & Hs & Hlate)]; rewrite Hrun, Hn || rewrite Hrun, Hs.
    + reflexivity.
    + unfold Promise_race. destruct Hlate as [Hlate | [-> Htie]].
      * destruct (t <? TIMEOUT) eqn:H1; [apply Z.ltb_lt in H1; lia|].
        destruct (TIMEOUT <? t) eqn:H2; [reflexivity | apply Z.ltb_ge in H2; lia].
      * rewrite Z.ltb_irrefl, Htie. reflexivity.
  - intros t r Hs Hearly Hok. rewrite Hrun, Hs. unfold Promise_race.
    apply ok_iff in Hok.
    destruct Hearly as [Hearly | [-> Htie]].
    + destruct (t <? TIMEOUT) eqn:H1; [|apply Z.ltb_ge in H1; lia].
      unfold bind. cbn. now rewrite Hok.
    + rewrite Z.ltb_irrefl, Htie. unfold bind. cbn. now rewrite Hok.
Qed.

(** ** What an invocation can do to the world

    A relation between the world before and after that is reflexive and
    transitive is kept by a whole script as soon as every primitive it
    calls keeps it. *)
Section Preserves.
Context (R : relation world) `{!PreOrder R}.

Lemma preserves_ret {A} (a : A) : preserves R (ret a).
Proof. intros w. reflexivity. Qed.

Lemma preserves_throw {A} e : preserves R (@throw A e).
Proof. intros w. reflexivity. Qed.

Lemma preserves_lift {A} (r : exn + A) : preserves R (lift r).
Proof. destruct r; [apply preserves_throw | apply preserves_ret]. Qed.

Lemma preserves_bind {A B} (m : M A) (k : A -> M B) :
  preserves R m -> (forall a, preserves R (k a)) -> preserves R (bind m k).
Proof.
  intros Hm Hk w. unfold bind. specialize (Hm w).
  destruct (m w) as [[a | e |] w1]; cbn in *; [|assumption..].
  etransitivity; [eassumption | apply Hk].
Qed.

Lemma preserves_getTable x : preserves R (getTable x).
Proof. intros w. unfold getTable. destruct (find_table _ _) as [[? ?]|]; reflexivity. Qed.

Lemma preserves_the_table h : preserves R (the_table h).
Proof. intros w. unfold the_table. destruct (_ !! _); reflexivity. Qed.

Lemma preserves_selectRecordAsync h rid : preserves R (selectRecordAsync h rid).
Proof.
  apply preserves_bind; [apply preserves_the_table | intros; apply preserves_ret].
Qed.

Lemma preserves_selectRecordsAsync_ids h ids : preserves R (selectRecordsAsync_ids h ids).
Proof.
  apply preserves_bind; [apply preserves_the_table | intros; apply preserves_ret].
Qed.

Lemma preserves_selectRecordsAsync_fields h fs : preserves R (selectRecordsAsync_fields h fs).
Proof.
  apply preserves_bind; [apply preserves_the_table | intros t].
  destruct (forallb _ _); [apply preserves_ret | apply preserves_throw].
Qed.

Lemma preserves_getConfigAsync h : preserves R (getConfigAsync h).
Proof.
  apply preserves_bind; [apply preserves_the_table | intros; apply preserves_ret].
Qed.

Lemma preserves_await p : preserves R (await p).
Proof.
  destruct p as [t [r | e] |]; cbn;
    [apply preserves_ret | apply preserves_throw | intros w; reflexivity].
Qed.

Lemma preserves_mapM {A B} (f : A -> M B) l :
  (forall x, preserves R (f x)) -> preserves R (mapM f l).
Proof.
  intros Hf. induction l as [|x l IH]; cbn; [apply preserves_ret|].
  apply preserves_bind; [apply Hf | intros y].
  apply preserves_bind; [apply IH | intros; apply preserves_ret].
Qed.

Lemma preserves_filterM {A} (p : A -> M bool) l :
  (forall x, preserves R (p x)) -> preserves R (filterM p l).
Proof.
  intros Hp. induction l as [|x l IH]; cbn; [apply preserves_ret|].
  apply preserves_bind; [apply Hp | intros b].
  apply preserves_bind; [apply IH | intros; apply preserves_ret].
Qed.

Lemma preserves_forM_ {A} (f : A -> M unit) l :
  (forall x, x ∈ l -> preserves R (f x)) -> preserves R (forM_ f l).
Proof.
  induction l as [|x l IH]; intros Hf; cbn; [apply preserves_ret|].
  apply preserves_bind; [apply Hf; left | intros _].
  apply IH. intros y Hy. apply Hf. now right.
Qed.
End Preserves.

Ltac preorder := try match goal with |- PreOrder _ => apply _ end.

(** The primitives that keep every such relation. *)
Ltac preserve_prim :=
  first
    [ apply preserves_ret | apply preserves_throw | apply preserves_lift
    | apply preserves_getTable | apply preserves_the_table
    | apply preserves_selectRecordAsync | apply preserves_selectRecordsAsync_ids
    | apply preserves_selectRecordsAsync_fields | apply preserves_getConfigAsync
    | apply preserves_await ];
  preorder.

(** Breaks a script into its primitives; [tac] deals with those that write. *)
Ltac preserve_with tac :=
  repeat first
    [ tac
    | preserve_prim
    | assumption
    | apply preserves_bind; preorder; [|intros]
    | apply preserves_mapM; preorder; intros
    | apply preserves_filterM; preorder; intros
    | match goal with
      | |- preserves _ (if ?b then _ else _) => destruct b
      | |- preserves _ (match ?x with _ => _ end) => destruct x
      end ].

Ltac preserve := preserve_with fail.

#[local] Instance unchanged_preorder : PreOrder unchanged.
Proof. unfold unchanged. apply _. Qed.

#[local] Instance extends_preorder P : PreOrder (extends P).
Proof.
  split.
  - intros w. exists []. now rewrite app_nil_r.
  - intros a b c (e1 & H1 & F1) (e2 & H2 & F2). exists (e1 ++ e2).
    rewrite H2, H1, app_assoc. split; [reflexivity | now apply Forall_app].
Qed.

#[local] Instance network_only_preorder : PreOrder network_only.
Proof.
  split.
  - intros w. split; [reflexivity|]. exists []. now rewrite app_nil_r.
  - intros a b c (B1 & e1 & H1 & F1) (B2 & e2 & H2 & F2). split; [congruence|].
    exists (e1 ++ e2). rewrite H2, H1, app_assoc, created_fields_app, F1, F2. now split.
Qed.

Lemma extends_fetch P E rq : P (Fetch rq) -> preserves (extends P) (fetch E rq).
Proof. intros H w. exists [Fetch rq]. split; [reflexivity | now constructor]. Qed.

Lemma extends_createFieldAsync P E h n ty :
  (forall t, P (CreateField t n ty)) -> preserves (extends P) (createFieldAsync E h n ty).
Proof.
  intros H. unfold createFieldAsync. apply preserves_bind; preorder; [preserve_prim | intros t].
  destruct (create_field_error _ _ _ _); [preserve_prim|].
  intros w. exists [CreateField (tbl_id t) n ty]. split; [reflexivity | now constructor].
Qed.

Lemma network_only_fetch E rq : preserves network_only (fetch E rq).
Proof. intros w. split; [reflexivity|]. now exists [Fetch rq]. Qed.

Lemma unchanged_preserves (R : relation world) `{!PreOrder R} {A} (m : M A) :
  preserves unchanged m -> preserves R m.
Proof.
  intros H w. specialize (H w). unfold unchanged in H.
  destruct (m w) as [o w1]. cbn in *. subst w1. reflexivity.
Qed.

Lemma unchanged_ai_getSystemPrompt E n : preserves unchanged (ai_getSystemPrompt E n).
Proof. unfold ai_getSystemPrompt. preserve. Qed.


(** ** The identifying context of every request *)







(** ** Field auto-provisioning *)

Lemma has_column_spec n cols : has_column n cols = true <-> n ∈ col_name <$> cols.
Proof.
  unfold has_column. rewrite existsb_exists, list_elem_of_fmap. split.
  - intros (c & Hc & Heq). apply String.eqb_eq in Heq. exists c. split; [easy|].
    now apply list_elem_of_In.
  - intros (c & -> & Hc). exists c. split; [now apply list_elem_of_In | apply String.eqb_refl].
Qed.

Lemma createFieldAsync_run E w h t name type :
  base w !! h = Some t ->
  create_field_error E (tbl_id t) name type = None ->
  createFieldAsync E h name type w = (Ok tt, with_field w h t name type).
Proof.
  intros Ht Hc. unfold createFieldAsync.
  rewrite (bind_Ok _ _ _ _ _ (the_table_found _ _ _ Ht)). now rewrite Hc.
Qed.

Lemma with_field_lookup w h t name type :
  base w !! h = Some t ->
  base (with_field w h t name type) !! h =
    Some (add_column {| col_name := name; col_type := type |} t).
Proof. intros Ht. cbn. apply list_lookup_insert_eq. now apply lookup_lt_Some in Ht. Qed.

Lemma provision_present E w h t record name rid :
  base w !! h = Some t -> has_column name (columns t) = true ->
  provision_post_id E h record name rid w = (Ok record, w).
Proof.
  intros Ht Hc. unfold provision_post_id, getConfigAsync.
  rewrite (bind_Ok _ _ _ (columns t) w); [now rewrite Hc|].
  now rewrite (bind_Ok _ _ _ _ _ (the_table_found _ _ _ Ht)).
Qed.

Lemma provision_absent E w h t record name rid :
  base w !! h = Some t -> has_column name (columns t) = false ->
  create_field_error E (tbl_id t) name "number" = None ->
  provision_post_id E h record name rid w =
    (Ok (snapshot (field_names t ++ [name]) <$> find_row rid t), with_field w h t name "number").
Proof.
  intros Ht Hc Hacc. unfold provision_post_id, getConfigAsync.
  rewrite (bind_Ok _ _ _ (columns t) w);
    [|now rewrite (bind_Ok _ _ _ _ _ (the_table_found _ _ _ Ht))].
  rewrite Hc. cbn [negb].
  rewrite (bind_Ok _ _ _ _ _ (createFieldAsync_run _ _ _ _ _ _ Ht Hacc)).
  rewrite (selectRecordAsync_found _ _ _ _ (with_field_lookup _ _ _ _ _ Ht)).
  unfold field_names, find_row. cbn. now rewrite fmap_app.
Qed.

(** The sync job on a table that lacks the post-id field: the field is
    created and the script goes on with the record fetched again. *)
Lemma sync_run_absent E w lang ac rid tid bid h t :
  find_table tid (base w) = Some (h, t) ->
  has_column (post_id_column_of lang) (columns t) = false ->
  create_field_error E (tbl_id t) (post_id_column_of lang) "number" = None ->
  sync_to_wordpress E lang ac rid tid bid w =
    sync_send E (snapshot (field_names t ++ [post_id_column_of lang]) <$> find_row rid t)
      lang ac rid tid bid (with_field w h t (post_id_column_of lang) "number").
Proof.
  intros Ht Hc Hok. pose proof (find_table_lookup _ _ _ _ Ht) as Hh.
  unfold sync_to_wordpress. cbv zeta.
  rewrite (bind_Ok _ _ _ _ _ (getTable_found _ _ _ _ Ht)).
  rewrite (bind_Ok _ _ _ _ _ (selectRecordAsync_found _ rid _ _ Hh)).
  now rewrite (bind_Ok _ _ _ _ _ (provision_absent E _ _ _ _ _ rid Hh Hc Hok)).
Qed.

(** The sync job on a table that has the field: nothing is created. *)
Lemma sync_run_present E w lang ac rid tid bid h t :
  find_table tid (base w) = Some (h, t) ->
  has_column (post_id_column_of lang) (columns t) = true ->
  sync_to_wordpress E lang ac rid tid bid w =
    sync_send E (snapshot (field_names t) <$> find_row rid t) lang ac rid tid bid w.
Proof.
  intros Ht Hc. pose proof (find_table_lookup _ _ _ _ Ht) as Hh.
  unfold sync_to_wordpress. cbv zeta.
  rewrite (bind_Ok _ _ _ _ _ (getTable_found _ _ _ _ Ht)).
  rewrite (bind_Ok _ _ _ _ _ (selectRecordAsync_found _ rid _ _ Hh)).
  now rewrite (bind_Ok _ _ _ _ _ (provision_present E _ _ _ _ _ rid Hh Hc)).
Qed.

(** For a record that exists: the record the script goes on with has the
    same cells, every field it had and the post-id field; the world is the
    same, or has that field added. *)
Lemma sync_open E w lang ac rid tid bid rc :
  current_record w tid rid = Some rc ->
  store_accepts E w (SyncToWordpress lang ac rid tid bid) ->
  exists rc1 w1,
    sync_to_wordpress E lang ac rid tid bid w =
      sync_send E (Some rc1) lang ac rid tid bid w1 /\
    rec_cells rc1 = rec_cells rc /\
    (forall f, f ∈ rec_fields rc -> f ∈ rec_fields rc1) /\
    post_id_column_of lang ∈ rec_fields rc1 /\
    (w1 = w /\ post_id_column_of lang ∈ rec_fields rc \/
     (post_id_column_of lang ∉ rec_fields rc) /\
     exists h t, find_table tid (base w) = Some (h, t) /\
                 w1 = with_field w h t (post_id_column_of lang) "number").
Proof.
  intros Hrc Hacc.
  destruct (current_record_inv _ _ _ _ Hrc) as (h & t & r & Ht & Hr & ->).
  destruct (has_column (post_id_column_of lang) (columns t)) eqn:Hc.
  - exists (snapshot (field_names t) r), w.
    rewrite (sync_run_present E w lang ac rid tid bid h t Ht Hc), Hr.
    apply has_column_spec in Hc. repeat split; auto.
  - assert (create_field_error E (tbl_id t) (post_id_column_of lang) "number" = None) as Hok.
    { apply Hacc. unfold table_of. now rewrite Ht. }
    exists (snapshot (field_names t ++ [post_id_column_of lang]) r),
           (with_field w h t (post_id_column_of lang) "number").
    rewrite (sync_run_absent E w lang ac rid tid bid h t Ht Hc Hok), Hr.
    cbn. repeat split.
    + intros f Hf. apply elem_of_app. now left.
    + apply elem_of_app. right. now left.
    + right. split; [|now exists h, t].
      intros Hin. apply has_column_spec in Hin. congruence.
Qed.


(** ** Validation of the inputs *)

Ltac in_list := repeat first [apply list_elem_of_here | apply list_elem_of_further].

Lemma fetches_with_field w h t n ty :
  fetches (log (with_field w h t n ty)) = fetches (log w).
Proof. cbn. rewrite fetches_app. cbn. apply app_nil_r. Qed.

(** The two tests of the sync job, on the values it has read. *)
Lemma sync_rejects E lang ac rid tid bid rc1 w1 :
  lang ∈ rec_fields rc1 -> "post_id_en" ∈ rec_fields rc1 -> ac ∈ rec_fields rc1 ->
  post_id_column_of lang ∈ rec_fields rc1 ->
  truthy (cell rc1 lang) = false \/ truthy (cell rc1 ac) = false ->
  exists m,
    sync_send E (Some rc1) lang ac rid tid bid w1 = (Throw (Error m), w1) /\
    m ∈ ["No content found"; "No author ID found"].
Proof.
  intros Hl He Ha Hp Hempty. unfold sync_send. cbv zeta.
  rewrite (getCellValue_loaded _ _ Hp), bind_lift_inr.
  rewrite (getCellValue_loaded _ _ Hl), bind_lift_inr.
  rewrite (getCellValue_loaded _ _ He), bind_lift_inr.
  rewrite (getCellValue_loaded _ _ Ha), bind_lift_inr.
  destruct (truthy (cell rc1 lang)) eqn:Hd; cbn [negb].
  - destruct Hempty as [Hempty | Hempty]; [discriminate|]. rewrite Hempty. cbn [negb].
    exists "No author ID found". split; [reflexivity | in_list].
  - exists "No content found". split; [reflexivity | in_list].
Qed.

(** C1 (as amended). For [create_map_image], [google_search],
    [crawl_url_content] and [sync_to_wordpress], when the record exists with
    the fields the call reads and one of the input columns the script tests
    has an empty cell, the call throws the script's own [Error] for a
    missing input ("Missing template or prompt", "No keywords found", "No
    URL found", "No content found" or "No author ID found") and issues no
    request.  [ai_generate] and [translate_i18n] test none of their input
    columns. *)
Theorem missing_input_rejected E w c rc f :
  current_record w (table_id_of c) (record_id_of c) = Some rc ->
  (forall x, x ∈ read_fields c -> x ∈ rec_fields rc) ->
  store_accepts E w c ->
  f ∈ validated_fields c ->
  rec_cells rc !! f = None ->
  exists m w',
    run E c w = (Throw (Error m), w') /\
    m ∈ validation_messages c /\
    fetches (log w') = fetches (log w).
Proof.
  intros Hrc Hfields Hacc Hf Hempty.
  destruct c as [tc pc oc rid tid bid | | | ic oc rid tid bid | ic oc rid tid bid
                | lang ac rid tid bid]; cbn in Hrc, Hf, Hfields |- *.
  - exists "Missing template or prompt", w. split; [|split; [in_list | reflexivity]].
    unfold create_map_image. rewrite (open_records _ _ _ _ _ Hrc). cbn [head].
    rewrite (getCellValue_loaded rc tc), bind_lift_inr by (apply Hfields; in_list).
    rewrite (getCellValue_loaded rc pc), bind_lift_inr by (apply Hfields; in_list).
    assert (truthy (cell rc tc) = false \/ truthy (cell rc pc) = false) as [-> | ->].
    { apply cell_empty in Hempty.
      apply elem_of_cons in Hf as [-> | Hf]; [left; now rewrite Hempty|].
      apply list_elem_of_singleton in Hf as ->. right. now rewrite Hempty. }
    + reflexivity.
    + now rewrite orb_true_r.
  - inversion Hf.
  - inversion Hf.
  - apply list_elem_of_singleton in Hf as ->.
    exists "No keywords found", w. split; [|split; [in_list | reflexivity]].
    unfold google_search. rewrite (open_record _ _ _ _ _ Hrc).
    rewrite (getCellValueAsString_loaded E rc ic), bind_lift_inr by (apply Hfields; in_list).
    now rewrite (cell_string_empty _ _ _ Hempty).
  - apply list_elem_of_singleton in Hf as ->.
    exists "No URL found", w. split; [|split; [in_list | reflexivity]].
    unfold crawl_url_content. rewrite (open_records _ _ _ _ _ Hrc). cbn [head].
    rewrite (getCellValue_loaded rc ic), bind_lift_inr by (apply Hfields; in_list).
    now rewrite (cell_empty _ _ Hempty).
  - destruct (sync_open E w lang ac rid tid bid rc Hrc Hacc)
      as (rc1 & w1 & Hopen & Hcells & Hsub & Hpid & Hw1).
    rewrite Hopen.
    destruct (sync_rejects E lang ac rid tid bid rc1 w1) as (m & -> & Hm).
    + apply Hsub, Hfields. in_list.
    + apply Hsub, Hfields. in_list.
    + apply Hsub, Hfields. in_list.
    + exact Hpid.
    + unfold cell. rewrite Hcells.
      apply elem_of_cons in Hf as [-> | Hf]; [left; now rewrite Hempty|].
      apply list_elem_of_singleton in Hf as ->. right. now rewrite Hempty.
    + exists m, w1. split; [reflexivity|]. split; [exact Hm|].
      destruct Hw1 as [[-> _] | (_ & h & t & _ & ->)]; [reflexivity | apply fetches_with_field].
Qed.


(** ** The sync job and the schema *)

Lemma list_find_insert_same {A} (P : A -> Prop) `{!forall x, Decision (P x)} l i x y :
  list_find P l = Some (i, x) -> P y -> list_find P (<[i := y]> l) = Some (i, y).
Proof.
  revert i. induction l as [|z l IH]; intros i Hfind Hy; [discriminate|].
  cbn in Hfind. destruct (decide (P z)) as [Hz | Hz].
  - injection Hfind as <- <-. cbn. now rewrite decide_True.
  - destruct (list_find P l) as [[j x']|] eqn:Hl; [|discriminate].
    injection Hfind as <- <-.
    change (<[S j := y]> (z :: l)) with (z :: <[j := y]> l).
    change (list_find P (z :: <[j := y]> l))
      with (if decide (P z) then Some (0%nat, z)
            else prod_map S id <$> list_find P (<[j := y]> l)).
    rewrite decide_False by assumption.
    now rewrite (IH j eq_refl Hy).
Qed.

Lemma find_table_with_field w tid h t n ty :
  find_table tid (base w) = Some (h, t) ->
  find_table tid (base (with_field w h t n ty)) =
    Some (h, add_column {| col_name := n; col_type := ty |} t).
Proof.
  intros Ht. unfold find_table in *. cbn [with_field base].
  apply (list_find_insert_same _ _ _ _ _ Ht).
  apply list_find_Some in Ht. tauto.
Qed.

Lemma has_column_add n ty t :
  has_column n (columns (add_column {| col_name := n; col_type := ty |} t)) = true.
Proof. apply has_column_spec. cbn. rewrite fmap_app. apply elem_of_app. right. now left. Qed.

Lemma columns_named_none n cols :
  has_column n cols = false -> filter (fun c => col_name c = n) cols = [].
Proof.
  induction cols as [|c cols IH]; [reflexivity|]. intros H. cbn in H.
  apply orb_false_iff in H as [Hc Hrest]. apply String.eqb_neq in Hc.
  rewrite filter_cons_False by assumption. now apply IH.
Qed.

Lemma sync_send_network_only E record lang ac rid tid bid :
  preserves network_only (sync_send E record lang ac rid tid bid).
Proof. unfold sync_send. preserve_with ltac:(apply network_only_fetch). Qed.

(** C10. When the table lacks the [post_id_<lang>] field and the record's
    content cell or author cell is empty (or otherwise falsy), the sync job
    first creates the field and only then throws "No content found" or "No
    author ID found": the call fails, the table has the new field, and no
    request has been issued. *)
Theorem sync_not_atomic_on_validation_failure E w lang ac rid tid bid rc :
  current_record w tid rid = Some rc ->
  post_id_column_of lang ∉ rec_fields rc ->
  store_accepts E w (SyncToWordpress lang ac rid tid bid) ->
  lang ∈ rec_fields rc -> ac ∈ rec_fields rc ->
  "post_id_en" ∈ rec_fields rc \/ lang = "en" ->
  truthy (cell rc lang) = false \/ truthy (cell rc ac) = false ->
  exists m w' t t',
    sync_to_wordpress E lang ac rid tid bid w = (Throw (Error m), w') /\
    m ∈ ["No content found"; "No author ID found"] /\
    log w' = log w ++ [CreateField (tbl_id t) (post_id_column_of lang) "number"] /\
    table_of w tid = Some t /\ has_column (post_id_column_of lang) (columns t) = false /\
    table_of w' tid = Some t' /\ has_column (post_id_column_of lang) (columns t') = true /\
    fetches (log w') = fetches (log w).
Proof.
  intros Hrc Habsent Hacc Hl Ha Hen Hempty.
  destruct (sync_open E w lang ac rid tid bid rc Hrc Hacc)
    as (rc1 & w1 & Hopen & Hcells & Hsub & Hpid & [[_ Hin] | (_ & h & t & Ht & ->)]);
    [contradiction|].
  destruct (sync_rejects E lang ac rid tid bid rc1
              (with_field w h t (post_id_column_of lang) "number")) as (m & Hrun & Hm).
  - now apply Hsub.
  - destruct Hen as [Hen | ->]; [now apply Hsub | exact Hpid].
  - now apply Hsub.
  - exact Hpid.
  - unfold cell in *. now rewrite Hcells.
  - exists m, (with_field w h t (post_id_column_of lang) "number"), t,
      (add_column {| col_name := post_id_column_of lang; col_type := "number" |} t).
    rewrite Hopen, Hrun. repeat split; try assumption.
    + unfold table_of. now rewrite Ht.
    + destruct (has_column _ (columns t)) eqn:Hc; [|reflexivity].
      apply has_column_spec in Hc. exfalso. apply Habsent.
      destruct (current_record_inv _ _ _ _ Hrc) as (h' & t0 & r & Ht' & _ & ->).
      rewrite Ht in Ht'. injection Ht' as _ <-. exact Hc.
    + unfold table_of. now rewrite (find_table_with_field _ _ _ _ _ _ Ht).
    + apply has_column_add.
    + apply fetches_with_field.
Qed.

(** C8. Two runs of the sync job for the same language on a table that
    lacks the [post_id_<lang>] field, with the store accepting the creation:
    the first run creates the field, the second finds it and creates
    nothing, and afterwards the table has exactly one column of that name.
    This holds however each run ends, and also when the second run is for
    another record or author column. *)
Theorem sync_provisions_field_once E w lang ac rid ac' rid' tid bid h t :
  find_table tid (base w) = Some (h, t) ->
  has_column (post_id_column_of lang) (columns t) = false ->
  create_field_error E (tbl_id t) (post_id_column_of lang) "number" = None ->
  let w1 := snd (sync_to_wordpress E lang ac rid tid bid w) in
  let w2 := snd (sync_to_wordpress E lang ac' rid' tid bid w1) in
  created_fields (log w1) =
    created_fields (log w) ++ [(tbl_id t, post_id_column_of lang, "number")] /\
  created_fields (log w2) = created_fields (log w1) /\
  exists t2, table_of w2 tid = Some t2 /\
             length (filter (fun c => col_name c = post_id_column_of lang) (columns t2)) = 1%nat.
Proof.
  intros Ht Hc Hok w1 w2.
  set (col := post_id_column_of lang) in *.
  set (t1 := add_column {| col_name := col; col_type := "number" |} t).
  assert (network_only (with_field w h t col "number") w1) as (Hb1 & e1 & Hl1 & Hc1).
  { subst w1. rewrite (sync_run_absent E w lang ac rid tid bid h t Ht Hc Hok).
    apply sync_send_network_only. }
  assert (find_table tid (base w1) = Some (h, t1)) as Ht1.
  { rewrite Hb1. now apply find_table_with_field. }
  assert (network_only w1 w2) as (Hb2 & e2 & Hl2 & Hc2).
  { subst w2. rewrite (sync_run_present E w1 lang ac' rid' tid bid h t1 Ht1 (has_column_add _ _ _)).
    apply sync_send_network_only. }
  split; [|split].
  - rewrite Hl1. cbn [with_field log]. rewrite !created_fields_app, Hc1. cbn.
    now rewrite app_nil_r.
  - rewrite Hl2, created_fields_app, Hc2. apply app_nil_r.
  - exists t1. split.
    + unfold table_of. now rewrite Hb2, Ht1.
    + unfold t1. cbn [add_column columns].
      rewrite filter_app, (columns_named_none _ _ Hc). cbn [app].
      now rewrite filter_cons_True by reflexivity.
Qed.


(** ** Sending a request and looking at the status *)

Lemma fetches_sent w rq : fetches (log (sent w rq)) = fetches (log w) ++ [rq].
Proof. cbn. now rewrite fetches_app. Qed.

Lemma await_outcome pre p (w : world) :
  (let* response := await p in
   if negb (ok response)
   then throw (Error (pre +:+ show (status response)))
   else ret tt) w = (settle_outcome pre p, w).
Proof.
  destruct p as [t [r | e] |]; cbn; try reflexivity.
  unfold bind, ret. cbn. now destruct (ok r).
Qed.

Lemma checked_post_run E pre rq w :
  checked_post E pre rq w =
    (settle_outcome pre (server E (length (fetches (log w))) rq), sent w rq).
Proof.
  unfold checked_post. rewrite (bind_Ok _ _ _ _ _ (fetch_run E rq w)).
  apply await_outcome.
Qed.

Lemma translateToLanguage_checked E um rid tid bid model l :
  translateToLanguage E um rid tid bid model l =
    checked_post E "HTTP error! status: " (translate_post um rid tid bid model l).
Proof. reflexivity. Qed.

(** ** translate_i18n: the batch *)

(** The loop only adds to the log. *)
Lemma run_extends_loop E um rid tid bid model ls w :
  exists evs,
    log (snd (forM_ (translateToLanguage E um rid tid bid model) ls w)) = log w ++ evs.
Proof.
  assert (preserves (extends (fun _ => True))
            (forM_ (translateToLanguage E um rid tid bid model) ls)) as H.
  { apply preserves_forM_; preorder. intros l _. unfold translateToLanguage.
    preserve_with ltac:(now apply extends_fetch). }
  destruct (H w) as (evs & Hevs & _). now exists evs.
Qed.

Section TranslateLoop.
Context (E : env) (um rid tid bid model : string).

#[local] Abbreviation req := (translate_post um rid tid bid model).
#[local] Abbreviation loop := (forM_ (translateToLanguage E um rid tid bid model)).

(** The loop runs to its end when every answer is a success. *)
Lemma translate_loop_ok ls : forall w,
  (forall i l, ls !! i = Some l ->
     exists t r, server E (length (fetches (log w)) + i) (req l) = Settles t (Fulfilled r) /\
                 ok r = true) ->
  exists w', loop ls w = (Ok tt, w') /\ base w' = base w /\
             fetches (log w') = fetches (log w) ++ (req <$> ls).
Proof.
  induction ls as [|l ls IH]; intros w Hall.
  - exists w. cbn. now rewrite app_nil_r.
  - destruct (Hall 0%nat l eq_refl) as (t & r & Hsrv & Hok).
    rewrite Nat.add_0_r in Hsrv.
    destruct (IH (sent w (req l))) as (w' & Hrun & Hbase & Hlog).
    { intros i l' Hl'. rewrite fetches_sent, length_app. cbn.
      rewrite <- Nat.add_assoc. apply (Hall (S i)). exact Hl'. }
    exists w'. split; [|split].
    + cbn [forM_]. rewrite translateToLanguage_checked.
      rewrite (bind_Ok _ _ _ tt (sent w (req l))); [exact Hrun|].
      rewrite checked_post_run, Hsrv. cbn. now rewrite Hok.
    + exact Hbase.
    + rewrite Hlog, fetches_sent, <- app_assoc. reflexivity.
Qed.

(** The loop stops at the first answer that is not a success: the request
    for that language is the last one issued. *)
Lemma translate_loop_stops ls : forall w k lk,
  ls !! k = Some lk ->
  (forall i l, (i < k)%nat -> ls !! i = Some l ->
     exists t r, server E (length (fetches (log w)) + i) (req l) = Settles t (Fulfilled r) /\
                 ok r = true) ->
  settle_outcome "HTTP error! status: "
    (server E (length (fetches (log w)) + k) (req lk)) <> Ok tt ->
  exists w', loop ls w =
               (settle_outcome "HTTP error! status: "
                  (server E (length (fetches (log w)) + k) (req lk)), w') /\
             base w' = base w /\
             fetches (log w') = fetches (log w) ++ (req <$> take (S k) ls).
Proof.
  induction ls as [|l ls IH]; intros w k lk Hk Hbefore Hfail; [discriminate|].
  cbn [forM_]. rewrite translateToLanguage_checked.
  destruct k as [|k].
  - injection Hk as ->. rewrite Nat.add_0_r in *.
    exists (sent w (req lk)). split; [|split; [reflexivity | apply fetches_sent]].
    pose proof (checked_post_run E "HTTP error! status: " (req lk) w) as Hrun.
    destruct (settle_outcome _ _) as [[] | e |] eqn:Ho; [contradiction | |].
    + now apply bind_Throw.
    + now apply bind_Never.
  - destruct (Hbefore 0%nat l (Nat.lt_0_succ k) eq_refl) as (t & r & Hsrv & Hok).
    rewrite Nat.add_0_r in Hsrv.
    destruct (IH (sent w (req l)) k lk Hk) as (w' & Hrun & Hbase & Hlog).
    { intros i l' Hi Hl'. rewrite fetches_sent, length_app. cbn.
      rewrite <- Nat.add_assoc. apply (Hbefore (S i)); [lia | exact Hl']. }
    { rewrite fetches_sent, length_app. cbn. now rewrite <- Nat.add_assoc. }
    rewrite fetches_sent, length_app in Hrun. cbn in Hrun.
    rewrite <- Nat.add_assoc in Hrun. cbn in Hrun.
    exists w'. split; [|split].
    + rewrite (bind_Ok _ _ _ tt (sent w (req l))); [exact Hrun|].
      rewrite checked_post_run, Hsrv. cbn. now rewrite Hok.
    + exact Hbase.
    + rewrite Hlog, fetches_sent, <- app_assoc. reflexivity.
Qed.
End TranslateLoop.

(** The script up to its loop. *)
Lemma translate_i18n_loop E w ic ls rid tid bid m rc :
  current_record w tid rid = Some rc -> ic ∈ rec_fields rc ->
  translate_i18n E ic ls rid tid bid m w =
    forM_ (translateToLanguage E (JSON_stringify E (cell rc ic)) rid tid bid
             (default "gpt-4o" m)) ls w.
Proof.
  intros Hrc Hic. unfold translate_i18n. cbv zeta.
  rewrite (open_record _ _ _ _ _ Hrc).
  now rewrite (getCellValue_loaded _ _ Hic), bind_lift_inr.
Qed.

(** C5. With [N] target languages and every sub-request answered with a
    success, [translate_i18n] returns after issuing exactly [N] requests, in
    the order of the list, the [i]-th with [output_column] equal to the
    [column] of the [i]-th language. *)
Theorem translate_one_request_per_language E w ic ls rid tid bid m rc :
  current_record w tid rid = Some rc -> ic ∈ rec_fields rc ->
  (forall i l, ls !! i = Some l ->
     exists t r, server E (length (fetches (log w)) + i) (translate_request E rc ic rid tid bid m l)
                   = Settles t (Fulfilled r) /\ ok r = true) ->
  exists w',
    translate_i18n E ic ls rid tid bid m w = (Ok tt, w') /\
    fetches (log w') = fetches (log w) ++ (translate_request E rc ic rid tid bid m <$> ls) /\
    length (fetches (log w')) = (length (fetches (log w)) + length ls)%nat /\
    forall i l, ls !! i = Some l ->
      exists rq, fetches (log w') !! (length (fetches (log w)) + i)%nat = Some rq /\
                 obj_get "output_column" (body rq) = Some (JStr (lang_column l)).
Proof.
  intros Hrc Hic Hall.
  destruct (translate_loop_ok E (JSON_stringify E (cell rc ic)) rid tid bid
              (default "gpt-4o" m) ls w Hall) as (w' & Hrun & _ & Hlog).
  exists w'. rewrite (translate_i18n_loop _ _ _ _ _ _ _ _ _ Hrc Hic).
  split; [exact Hrun|]. split; [exact Hlog|]. split.
  - now rewrite Hlog, length_app, length_fmap.
  - intros i l Hl. exists (translate_request E rc ic rid tid bid m l). split; [|reflexivity].
    rewrite Hlog, lookup_app_r by lia.
    replace (length (fetches (log w)) + i - length (fetches (log w)))%nat with i by lia.
    now rewrite list_lookup_fmap, Hl.
Qed.

(** C6. When the sub-requests before the [k]-th succeed and the [k]-th is
    answered with a status that is not a success, or is rejected,
    [translate_i18n] throws at once (the [Error] "HTTP error! status: <status>",
    or the rejection itself), and the request for the [k]-th language is the
    last one issued: no language after it is requested. *)
Theorem translate_aborts_on_first_failure E w ic ls rid tid bid m rc k lk e :
  current_record w tid rid = Some rc -> ic ∈ rec_fields rc ->
  ls !! k = Some lk ->
  (forall i l, (i < k)%nat -> ls !! i = Some l ->
     exists t r, server E (length (fetches (log w)) + i) (translate_request E rc ic rid tid bid m l)
                   = Settles t (Fulfilled r) /\ ok r = true) ->
  ((exists t r, server E (length (fetches (log w)) + k) (translate_request E rc ic rid tid bid m lk)
                  = Settles t (Fulfilled r) /\ ok r = false /\
                e = Error ("HTTP error! status: " +:+ show (status r))) \/
   (exists t, server E (length (fetches (log w)) + k) (translate_request E rc ic rid tid bid m lk)
                = Settles t (Rejected e))) ->
  exists w',
    translate_i18n E ic ls rid tid bid m w = (Throw e, w') /\
    fetches (log w') =
      fetches (log w) ++ (translate_request E rc ic rid tid bid m <$> take (S k) ls) /\
    length (fetches (log w')) = (length (fetches (log w)) + S k)%nat.
Proof.
  intros Hrc Hic Hk Hbefore Hfail.
  assert (settle_outcome "HTTP error! status: "
            (server E (length (fetches (log w)) + k) (translate_request E rc ic rid tid bid m lk))
          = Throw e) as Hout.
  { destruct Hfail as [(t & r & -> & Hok & ->) | (t & ->)]; cbn; [now rewrite Hok | reflexivity]. }
  destruct (translate_loop_stops E (JSON_stringify E (cell rc ic)) rid tid bid
              (default "gpt-4o" m) ls w k lk Hk Hbefore) as (w' & Hrun & _ & Hlog).
  { unfold translate_request in Hout. rewrite Hout. discriminate. }
  exists w'. rewrite (translate_i18n_loop _ _ _ _ _ _ _ _ _ Hrc Hic).
  unfold translate_request in Hout. rewrite Hout in Hrun.
  split; [exact Hrun|]. split; [exact Hlog|].
  rewrite Hlog, length_app, length_fmap, length_take.
  apply lookup_lt_Some in Hk. lia.
Qed.


(** ** Non-success statuses *)

#[local] Instance quiet_preorder : PreOrder quiet.
Proof.
  split; [intros w; reflexivity|].
  intros a b c H1 H2. unfold quiet in *. congruence.
Qed.

Lemma quiet_createFieldAsync E h n ty : preserves quiet (createFieldAsync E h n ty).
Proof.
  unfold createFieldAsync. apply preserves_bind; preorder; [preserve_prim | intros t].
  destruct (create_field_error _ _ _ _); [preserve_prim|].
  intros w. unfold quiet. cbn. rewrite fetches_app. apply app_nil_r.
Qed.

Lemma raises_quiet E pre it (m : M unit) : preserves quiet m -> raises_on_status E pre it m.
Proof.
  intros Hq w i rq t r Hlook. rewrite (Hq w) in Hlook.
  apply lookup_lt_Some in Hlook. lia.
Qed.

Lemma raises_bind E pre it {A} (m : M A) (k : A -> M unit) :
  preserves quiet m -> (forall a, raises_on_status E pre it (k a)) ->
  raises_on_status E pre it (bind m k).
Proof.
  intros Hq Hk w i rq t r. specialize (Hq w). unfold quiet in Hq. unfold bind.
  destruct (m w) as [[a | e |] w1]; cbn in Hq |- *.
  - rewrite <- Hq. apply Hk.
  - rewrite Hq. intros Hlook. apply lookup_lt_Some in Hlook. lia.
  - rewrite Hq. intros Hlook. apply lookup_lt_Some in Hlook. lia.
Qed.

Lemma lookup_last_sent (l : list request) rq i rq' :
  (l ++ [rq]) !! (length l + i)%nat = Some rq' -> i = 0%nat /\ rq' = rq.
Proof.
  intros H. pose proof (lookup_lt_Some _ _ _ H) as Hlt.
  rewrite length_app in Hlt. cbn in Hlt. assert (i = 0%nat) as -> by lia.
  rewrite Nat.add_0_r, list_lookup_middle in H by reflexivity. now injection H as <-.
Qed.

Lemma raises_checked_post E pre it rq :
  raises_on_status E pre it (checked_post E pre rq).
Proof.
  intros w i rq' t r. rewrite checked_post_run. cbn [fst snd]. rewrite fetches_sent.
  intros [-> ->]%lookup_last_sent. rewrite Nat.add_0_r. intros -> Hok _.
  cbn. now rewrite Hok.
Qed.

Lemma raises_raced_post E rq :
  raises_on_status E "API request failed with status " (fun t => t < TIMEOUT)
    (let* fetchPromise := fetch E rq in
     let* response := await (Promise_race E fetchPromise TIMEOUT timeout_error) in
     if negb (ok response)
     then throw (Error ("API request failed with status " +:+ show (status response)))
     else ret tt).
Proof.
  intros w i rq' t r. rewrite (bind_Ok _ _ _ _ _ (fetch_run E rq w)), await_outcome.
  cbn [fst snd]. fold (sent w rq). rewrite fetches_sent.
  intros [-> ->]%lookup_last_sent. rewrite Nat.add_0_r. intros -> Hok Ht.
  unfold Promise_race. apply Z.ltb_lt in Ht. rewrite Ht. cbn. now rewrite Hok.
Qed.

Lemma raises_translate_loop E um rid tid bid model it ls :
  raises_on_status E "HTTP error! status: " it
    (forM_ (translateToLanguage E um rid tid bid model) ls).
Proof.
  induction ls as [|l ls IH]; [apply raises_quiet; preserve|].
  intros w i rq t r. cbn [forM_]. rewrite translateToLanguage_checked.
  set (rq0 := translate_post um rid tid bid model l).
  pose proof (checked_post_run E "HTTP error! status: " rq0 w) as Hpost.
  destruct (settle_outcome _ (server E (length (fetches (log w))) rq0)) as [[] | e |] eqn:Hout.
  - rewrite (bind_Ok _ _ _ _ _ Hpost).
    destruct (run_extends_loop E um rid tid bid model ls (sent w rq0)) as (evs & Hevs).
    destruct i as [|i].
    + rewrite Hevs, fetches_app, fetches_sent, Nat.add_0_r, <- app_assoc.
      change ([rq0] ++ fetches evs) with (rq0 :: fetches evs).
      rewrite list_lookup_middle by reflexivity. intros [= <-] Hsrv Hok _.
      rewrite Hsrv in Hout. cbn in Hout. rewrite Hok in Hout. discriminate.
    + intros Hlook Hsrv. apply (IH (sent w rq0) i rq t r).
      * rewrite fetches_sent, length_app. cbn. rewrite <- Nat.add_assoc. exact Hlook.
      * rewrite fetches_sent, length_app. cbn. rewrite <- Nat.add_assoc. exact Hsrv.
  - rewrite (bind_Throw _ _ _ _ _ Hpost). cbn [fst snd]. rewrite fetches_sent.
    intros [-> ->]%lookup_last_sent. rewrite Nat.add_0_r.
    intros Hsrv Hok _. rewrite Hsrv in Hout. cbn in Hout. rewrite Hok in Hout. now symmetry.
  - rewrite (bind_Never _ _ _ _ Hpost). cbn [fst snd]. rewrite fetches_sent.
    intros [-> ->]%lookup_last_sent. rewrite Nat.add_0_r.
    intros Hsrv Hok _. rewrite Hsrv in Hout. cbn in Hout. rewrite Hok in Hout. discriminate.
Qed.

Ltac raises :=
  repeat first
    [ apply raises_raced_post
    | apply raises_checked_post
    | apply raises_translate_loop
    | apply raises_quiet; solve [preserve_with ltac:(apply quiet_createFieldAsync)]
    | apply raises_bind; [solve [preserve_with ltac:(apply quiet_createFieldAsync)] | intros]
    | match goal with
      | |- raises_on_status _ _ _ (if ?b then _ else _) => destruct b
      | |- raises_on_status _ _ _ (match ?x with _ => _ end) => destruct x
      end ].

(** C3 (as amended). In [create_map_image], [translate_i18n],
    [crawl_url_content] and [sync_to_wordpress], when a request the call has
    issued is answered with a status outside 200-299 (for the map image:
    before the timer), the call throws an [Error] whose message ends with
    that status: "API request failed with status <status>", or "HTTP
    error! status: <status>" for the translation.  [ai_generate] and
    [google_search] do not look at the response. *)
Theorem bad_status_raises E w c i rq t r :
  checks_status c = true ->
  fetches (log (snd (run E c w))) !! (length (fetches (log w)) + i)%nat = Some rq ->
  server E (length (fetches (log w)) + i) rq = Settles t (Fulfilled r) ->
  ok r = false ->
  arrives_in_time c t ->
  fst (run E c w) = Throw (Error (status_error_prefix c +:+ show (status r))).
Proof.
  intros Hc. revert w i rq t r.
  change (raises_on_status E (status_error_prefix c) (arrives_in_time c) (run E c)).
  destruct c; try discriminate Hc; cbn [run status_error_prefix].
  - unfold create_map_image. raises.
  - unfold translate_i18n. raises.
  - unfold crawl_url_content. raises.
  - unfold sync_to_wordpress, sync_send, provision_post_id. raises.
Qed.


(** ** ai_generate *)

Lemma selectRecordsAsync_fields_found h fs w t :
  base w !! h = Some t -> (forall f, f ∈ fs -> f ∈ field_names t) ->
  selectRecordsAsync_fields h fs w = (Ok (snapshot fs <$> rows t), w).
Proof.
  intros Ht Hfs. unfold selectRecordsAsync_fields.
  rewrite (bind_Ok _ _ _ _ _ (the_table_found _ _ _ Ht)).
  replace (forallb _ fs) with true; [reflexivity|].
  symmetry. apply forallb_forall. intros f Hf.
  apply bool_decide_eq_true_2, Hfs. now apply list_elem_of_In.
Qed.

Lemma filter_by_name_none E name (rs : list row) w :
  (forall r, r ∈ rs -> row_string E r "Name" <> name) ->
  filterM (fun r => let* n := lift (getCellValueAsString E (Some r) "Name") in
                    ret (String.eqb n name))
    (snapshot ["Name"; "Prompt"] <$> rs) w = (Ok [], w).
Proof.
  induction rs as [|r rs IH]; intros Hno; [reflexivity|].
  cbn [fmap list_fmap filterM].
  rewrite (bind_Ok _ _ _ false w).
  - rewrite (bind_Ok _ _ _ [] w); [reflexivity|].
    apply IH. intros r' Hr'. apply Hno. now apply list_elem_of_further.
  - rewrite (getCellValueAsString_loaded E (snapshot ["Name"; "Prompt"] r) "Name")
      by apply list_elem_of_here.
    rewrite bind_lift_inr. unfold ret. do 2 f_equal.
    apply String.eqb_neq. apply (Hno r). apply list_elem_of_here.
Qed.

(** C7. When the "Prompts" table (with its "Name" and "Prompt" fields) has
    no record whose Name reads as the given system prompt name,
    [ai_generate] throws the [Error] "Failed to retrieve system prompt:
    <name>" and leaves the world as it was: no request is issued. *)
Theorem ai_generate_unknown_prompt E w ics name oc rid tid bid m j h t :
  find_table PROMPTS_TABLE_NAME (base w) = Some (h, t) ->
  "Name" ∈ field_names t -> "Prompt" ∈ field_names t ->
  (forall r, r ∈ rows t -> row_string E r "Name" <> name) ->
  ai_generate E ics name oc rid tid bid m j w =
    (Throw (Error ("Failed to retrieve system prompt: " +:+ name)), w).
Proof.
  intros Ht Hn Hp Hno. unfold ai_generate. cbv zeta.
  rewrite (bind_Ok _ _ _ JNull w); [reflexivity|].
  unfold ai_getSystemPrompt.
  rewrite (bind_Ok _ _ _ _ _ (getTable_found _ _ _ _ Ht)).
  rewrite (bind_Ok _ _ _ _ _ (selectRecordsAsync_fields_found h ["Name"; "Prompt"] w t
                                 (find_table_lookup _ _ _ _ Ht)
                                 ltac:(intros f [-> | [-> | []%elem_of_nil]%elem_of_cons]%elem_of_cons;
                                       assumption))).
  now rewrite (bind_Ok _ _ _ _ _ (filter_by_name_none E name (rows t) w Hno)).
Qed.

Lemma map_fragments E rc ics w :
  (forall c, c ∈ ics -> c ∈ rec_fields rc) ->
  mapM (fun column => let* v := lift (getCellValueAsString E (Some rc) column) in
                      ret (xml_tag column v)) ics w =
    (Ok ((fun c => xml_tag c (cell_string E rc c)) <$> ics), w).
Proof.
  induction ics as [|c ics IH]; intros Hall; [reflexivity|].
  cbn [mapM fmap list_fmap].
  rewrite (bind_Ok _ _ _ (xml_tag c (cell_string E rc c)) w).
  - now rewrite (bind_Ok _ _ _ _ _ (IH (fun c' Hc' => Hall c' (list_elem_of_further _ _ _ Hc')))).
  - rewrite (getCellValueAsString_loaded E rc c) by (apply Hall, list_elem_of_here).
    now rewrite bind_lift_inr.
Qed.

(** [join] is the library's [String.concat]: the items in order, with the
    separator between two neighbours and nowhere else. *)
Lemma join_concat sep l : join sep l = String.concat sep l.
Proof.
  induction l as [|x l IH]; [reflexivity|].
  destruct l as [|y l]; [reflexivity|].
  change (join sep (x :: y :: l)) with (x +:+ sep +:+ join sep (y :: l)).
  change (String.concat sep (x :: y :: l))
    with (x +:+ sep +:+ String.concat sep (y :: l)).
  now rewrite IH.
Qed.

(** C9. Once the system prompt has been found, [ai_generate] issues one
    request whose [user_msg] is, for any list of input columns, the
    fragments [<column>value</column>] of the columns, in list order, with
    one newline (character 10) between two neighbours, where [value] is the
    cell read as a string; an empty cell gives [<column></column>]. *)
Theorem ai_generate_user_msg E w ics name oc rid tid bid m j sp rc :
  fst (ai_getSystemPrompt E name w) = Ok sp -> truthy sp = true ->
  current_record w tid rid = Some rc ->
  (forall c, c ∈ ics -> c ∈ rec_fields rc) ->
  exists rq,
    fetches (log (snd (ai_generate E ics name oc rid tid bid m j w))) =
      fetches (log w) ++ [rq] /\
    obj_get "user_msg" (body rq) =
      Some (JStr (String.concat (String "010"%char "")
                    (List.map (fun c => "<" +:+ c +:+ ">" +:+
                                        from_option (format_cell E) "" (rec_cells rc !! c) +:+
                                        "</" +:+ c +:+ ">") ics))) /\
    forall c, rec_cells rc !! c = None ->
      "<" +:+ c +:+ ">" +:+ from_option (format_cell E) "" (rec_cells rc !! c) +:+
      "</" +:+ c +:+ ">" = "<" +:+ c +:+ "></" +:+ c +:+ ">".
Proof.
  intros Hsp Htruthy Hrc Hall.
  assert (ai_getSystemPrompt E name w = (Ok sp, w)) as Hprompt.
  { pose proof (unchanged_ai_getSystemPrompt E name w) as Hw. unfold unchanged in Hw.
    destruct (ai_getSystemPrompt E name w) as [o w0]. cbn in *. now subst. }
  eexists. split; [|split].
  - unfold ai_generate. cbv zeta.
    rewrite (bind_Ok _ _ _ _ _ Hprompt), Htruthy. cbn [negb].
    rewrite (open_record _ _ _ _ _ Hrc).
    rewrite (bind_Ok _ _ _ _ _ (map_fragments E rc ics w Hall)).
    rewrite (bind_Ok _ _ _ _ _ (fetch_run E _ w)).
    match goal with
    | |- context [bind (await ?p) ?k ?w1] =>
        assert (snd (bind (await p) k w1) = w1) as ->
    end.
    { destruct (server _ _ _) as [t [r | e] |]; reflexivity. }
    cbn [log]. rewrite fetches_app. reflexivity.
  - cbn. rewrite join_concat. reflexivity.
  - intros c ->. reflexivity.
Qed.
(** * Further properties *)

(** ** Where the requests go *)

Lemma run_well_addressed E c : preserves (extends (event_well_addressed c)) (run E c).
Proof.
  destruct c; cbn [run];
    unfold create_map_image, ai_generate, translate_i18n, translateToLanguage, google_search,
      crawl_url_content, sync_to_wordpress, sync_send, provision_post_id.
  all: try solve
    [ preserve_with ltac:(first [ apply extends_createFieldAsync; intros; exact I
                                | apply extends_fetch; cbn; repeat split ]) ].
  preserve. apply preserves_forM_; preorder. intros l _.
  preserve_with ltac:(apply extends_fetch; cbn; repeat split).
Qed.

(** X1. Every request a call issues, in any world and whatever the outcome,
    is a POST to the script's one endpoint; the sync job alone sets a
    header, [Content-Type: application/json]. *)
Theorem requests_go_to_fixed_endpoint E c w :
  exists evs,
    log (snd (run E c w)) = log w ++ evs /\
    Forall (well_addressed c) (fetches evs).
Proof.
  destruct (run_well_addressed E c w) as (evs & Hlog & Hall). exists evs. split; [exact Hlog|].
  clear Hlog. induction Hall as [|ev evs Hev _ IH]; [constructor|].
  destruct ev; cbn; [constructor; assumption | exact IH].
Qed.

(** ** Scripts that only read *)

Lemma reads_ret {A} (a : A) : reads (ret a).
Proof. intros w. now split. Qed.

Lemma reads_throw {A} e : reads (@throw A e).
Proof. intros w. now split. Qed.

Lemma reads_lift {A} (r : exn + A) : reads (lift r).
Proof. destruct r; [apply reads_throw | apply reads_ret]. Qed.

Lemma reads_bind {A B} (m : M A) (k : A -> M B) :
  reads m -> (forall a, reads (k a)) -> reads (bind m k).
Proof.
  intros Hm Hk w. unfold bind. destruct (Hm w) as [Hq Hn].
  destruct (m w) as [[a | e |] w1]; cbn in *; [|now split | contradiction].
  destruct (Hk a w1) as [Hq' Hn']. split; [congruence | exact Hn'].
Qed.

Lemma reads_getTable x : reads (getTable x).
Proof. intros w. unfold getTable. destruct (find_table _ _) as [[? ?]|]; now split. Qed.

Lemma reads_the_table h : reads (the_table h).
Proof. intros w. unfold the_table. destruct (_ !! _); now split. Qed.

Lemma reads_selectRecordAsync h rid : reads (selectRecordAsync h rid).
Proof. apply reads_bind; [apply reads_the_table | intros; apply reads_ret]. Qed.

Lemma reads_selectRecordsAsync_ids h ids : reads (selectRecordsAsync_ids h ids).
Proof. apply reads_bind; [apply reads_the_table | intros; apply reads_ret]. Qed.

Lemma reads_selectRecordsAsync_fields h fs : reads (selectRecordsAsync_fields h fs).
Proof.
  apply reads_bind; [apply reads_the_table | intros t].
  destruct (forallb _ _); [apply reads_ret | apply reads_throw].
Qed.

Lemma reads_getConfigAsync h : reads (getConfigAsync h).
Proof. apply reads_bind; [apply reads_the_table | intros; apply reads_ret]. Qed.

(** Creating a field is no request. *)
Lemma reads_createFieldAsync E h n ty : reads (createFieldAsync E h n ty).
Proof.
  unfold createFieldAsync. apply reads_bind; [apply reads_the_table | intros t].
  destruct (create_field_error _ _ _ _); [apply reads_throw|].
  intros w. cbn. rewrite fetches_app. cbn. now rewrite app_nil_r.
Qed.

Lemma reads_mapM {A B} (f : A -> M B) l : (forall x, reads (f x)) -> reads (mapM f l).
Proof.
  intros Hf. induction l as [|x l IH]; cbn; [apply reads_ret|].
  apply reads_bind; [apply Hf | intros y].
  apply reads_bind; [apply IH | intros; apply reads_ret].
Qed.

Lemma reads_filterM {A} (p : A -> M bool) l : (forall x, reads (p x)) -> reads (filterM p l).
Proof.
  intros Hp. induction l as [|x l IH]; cbn; [apply reads_ret|].
  apply reads_bind; [apply Hp | intros b].
  apply reads_bind; [apply IH | intros; apply reads_ret].
Qed.

Ltac reading :=
  repeat first
    [ apply reads_ret | apply reads_throw | apply reads_lift
    | apply reads_getTable | apply reads_the_table
    | apply reads_selectRecordAsync | apply reads_selectRecordsAsync_ids
    | apply reads_selectRecordsAsync_fields | apply reads_getConfigAsync
    | apply reads_createFieldAsync
    | apply reads_mapM; intros
    | apply reads_filterM; intros
    | apply reads_bind; [|intros]
    | match goal with
      | |- reads (if ?b then _ else _) => destruct b
      | |- reads (match ?x with _ => _ end) => destruct x
      end ].

Lemma reads_ai_getSystemPrompt E n : reads (ai_getSystemPrompt E n).
Proof. unfold ai_getSystemPrompt. reading. Qed.

Lemma reads_provision_post_id E h record n rid : reads (provision_post_id E h record n rid).
Proof. unfold provision_post_id. reading. Qed.

(** ** The shape of a run *)

Lemma trace_weaken (Q Q' : nat -> list request -> outcome unit -> Prop) m :
  (forall n rqs o, Q n rqs o -> Q' n rqs o) -> trace_spec Q m -> trace_spec Q' m.
Proof. intros HQ Hm w. destruct (Hm w) as (rqs & Hlog & Hq). exists rqs. auto. Qed.

Lemma trace_throw (Q : nat -> list request -> outcome unit -> Prop) e :
  (forall n, Q n [] (Throw e)) -> trace_spec Q (throw e).
Proof. intros HQ w. exists []. cbn. rewrite app_nil_r. auto. Qed.

(** A reading prefix leaves the shape to what follows it, when the shape
    allows for a throw before any request. *)
Lemma trace_bind {A} (Q : nat -> list request -> outcome unit -> Prop) (m : M A) k :
  (forall n e, Q n [] (Throw e)) ->
  reads m -> (forall a, trace_spec Q (k a)) -> trace_spec Q (bind m k).
Proof.
  intros HQ Hm Hk w. unfold bind. destruct (Hm w) as [Hq Hn].
  destruct (m w) as [[a | e |] w1]; cbn in *; [| |contradiction].
  - rewrite <- Hq. apply Hk.
  - exists []. rewrite Hq, app_nil_r. auto.
Qed.

Lemma trace_checked_post E pre rq :
  trace_spec (single_shape E (settle_outcome pre)) (checked_post E pre rq).
Proof.
  intros w. exists [rq]. rewrite checked_post_run. cbn [fst snd]. rewrite fetches_sent.
  split; [reflexivity|]. now exists rq.
Qed.

Lemma trace_unchecked_post E rq :
  trace_spec (single_shape E unchecked_outcome)
    (let* p := fetch E rq in let* _ := await p in ret tt).
Proof.
  intros w. exists [rq]. rewrite (bind_Ok _ _ _ _ _ (fetch_run E rq w)). fold (sent w rq).
  assert ((let* _ := await (server E (length (fetches (log w))) rq) in ret tt) (sent w rq)
          = (unchecked_outcome (server E (length (fetches (log w))) rq), sent w rq)) as ->.
  { destruct (server _ _ _) as [t [r | e] |]; reflexivity. }
  cbn [fst snd]. rewrite fetches_sent. split; [reflexivity|]. now exists rq.
Qed.

Lemma trace_raced_post E rq :
  trace_spec
    (single_shape E (fun p => settle_outcome "API request failed with status "
                                (Promise_race E p TIMEOUT timeout_error)))
    (let* fetchPromise := fetch E rq in
     let* response := await (Promise_race E fetchPromise TIMEOUT timeout_error) in
     if negb (ok response)
     then throw (Error ("API request failed with status " +:+ show (status response)))
     else ret tt).
Proof.
  intros w. exists [rq]. rewrite (bind_Ok _ _ _ _ _ (fetch_run E rq w)), await_outcome.
  cbn [fst snd]. fold (sent w rq). rewrite fetches_sent. split; [reflexivity|]. now exists rq.
Qed.

Lemma settle_outcome_Ok pre p u :
  settle_outcome pre p = Ok u -> exists t r, p = Settles t (Fulfilled r) /\ ok r = true.
Proof.
  destruct p as [t [r | e] |]; cbn; try discriminate.
  destruct (ok r) eqn:Hok; [|discriminate]. intros _. now exists t, r.
Qed.

(** A loop of checked posts, one per language. *)
Lemma checked_loop_shape E (req : language -> request) ls :
  trace_spec (batch_shape E req ls)
    (forM_ (fun l => checked_post E "HTTP error! status: " (req l)) ls).
Proof.
  induction ls as [|l ls IH]; intros w.
  - exists []. cbn. rewrite app_nil_r. split; [reflexivity|]. left.
    repeat split. intros i l Hl. discriminate Hl.
  - cbn [forM_].
    pose proof (checked_post_run E "HTTP error! status: " (req l) w) as Hpost.
    remember (length (fetches (log w))) as n eqn:Hn.
    destruct (settle_outcome _ (server E n (req l))) as [[] | e |] eqn:Hout.
    + rewrite (bind_Ok _ _ _ _ _ Hpost).
      destruct (IH (sent w (req l))) as (rqs & Hlog & Hshape).
      rewrite fetches_sent, length_app in Hshape. cbn [length] in Hshape. rewrite <- Hn in Hshape.
      exists (req l :: rqs). split.
      { rewrite Hlog, fetches_sent, <- app_assoc. reflexivity. }
      apply settle_outcome_Ok in Hout as (t0 & r0 & Hsrv & Hok0).
      destruct Hshape as [(Ho & -> & Hall) | (j & l' & Hj & -> & Hbefore & Ho & Hne)].
      * left. split; [exact Ho|]. split; [reflexivity|].
        intros [|i] l'' Hl''.
        -- injection Hl'' as <-. rewrite Nat.add_0_r. now exists t0, r0.
        -- replace (n + S i)%nat with (n + 1 + i)%nat by lia. now apply Hall.
      * right. exists (S j), l'. split; [exact Hj|]. split; [reflexivity|].
        replace (n + S j)%nat with (n + 1 + j)%nat by lia. split; [|now split].
        intros [|i] l'' Hi Hl''.
        -- injection Hl'' as <-. rewrite Nat.add_0_r. now exists t0, r0.
        -- replace (n + S i)%nat with (n + 1 + i)%nat by lia. apply Hbefore; [lia | exact Hl''].
    + rewrite (bind_Throw _ _ _ _ _ Hpost). exists [req l]. cbn [fst snd]. rewrite fetches_sent.
      split; [reflexivity|]. right. exists 0%nat, l. rewrite Nat.add_0_r.
      split; [reflexivity|]. split; [reflexivity|]. split; [intros; lia|].
      rewrite Hout. split; [reflexivity | discriminate].
    + rewrite (bind_Never _ _ _ _ Hpost). exists [req l]. cbn [fst snd]. rewrite fetches_sent.
      split; [reflexivity|]. right. exists 0%nat, l. rewrite Nat.add_0_r.
      split; [reflexivity|]. split; [reflexivity|]. split; [intros; lia|].
      rewrite Hout. split; [reflexivity | discriminate].
Qed.

Lemma batch_loop E um rid tid bid model ls :
  trace_spec (batch_shape E (translate_post um rid tid bid model) ls)
    (forM_ (translateToLanguage E um rid tid bid model) ls).
Proof. exact (checked_loop_shape E (translate_post um rid tid bid model) ls). Qed.

(** Peels the reading prefix off a script; [rd] helps with its own readers. *)
Ltac shaping_with rd :=
  repeat first
    [ apply trace_throw; intros; left; split; [reflexivity | eexists; reflexivity]
    | apply trace_bind;
        [ intros; left; split; [reflexivity | eexists; reflexivity]
        | solve [reading | rd]
        | intros ]
    | match goal with
      | |- trace_spec _ (if ?b then _ else _) => destruct b
      | |- trace_spec _ (match ?x with _ => _ end) => destruct x
      end ].

(** The sending tail of a script has the single-request shape. *)
Ltac single_tail lem :=
  eapply trace_weaken; [|apply lem]; intros ? ? ? H; right; exact H.

(** Every run has the shape of its script. *)
Lemma run_has_shape E c : trace_spec (run_shape E c) (run E c).
Proof.
  destruct c; cbn [run].
  - unfold create_map_image. shaping_with fail. all: single_tail trace_raced_post.
  - unfold ai_generate. cbv zeta. shaping_with ltac:(apply reads_ai_getSystemPrompt).
    all: single_tail trace_unchecked_post.
  - unfold translate_i18n. cbv zeta. shaping_with fail.
    eapply trace_weaken; [|apply batch_loop]. intros ? ? ? H. right. eexists. exact H.
  - unfold google_search. shaping_with fail. all: single_tail trace_unchecked_post.
  - unfold crawl_url_content. shaping_with fail.
    all: single_tail (trace_checked_post E "API request failed with status ").
  - unfold sync_to_wordpress, sync_send. cbv zeta.
    shaping_with ltac:(apply reads_provision_post_id).
    all: single_tail (trace_checked_post E "API request failed with status ").
Qed.

(** X2. Every call, in any world, either throws before it has sent
    anything, or sends exactly one request and ends as the answer to it
    decides (raced against the timer for the map image, with the status
    looked at by all but [ai_generate] and [google_search]); the
    translation sends the requests of its languages in order and either
    returns after a success for each, or ends at the first answer that is
    not a success with the outcome that answer gives. *)
Theorem every_run_has_shape E c w :
  exists rqs,
    fetches (log (snd (run E c w))) = fetches (log w) ++ rqs /\
    run_shape E c (length (fetches (log w))) rqs (fst (run E c w)).
Proof. exact (run_has_shape E c w). Qed.

Lemma lookup_added {A} (l rqs : list A) i : (l ++ rqs) !! (length l + i)%nat = rqs !! i.
Proof. rewrite lookup_app_r by lia. f_equal. lia. Qed.

Lemma settle_outcome_Never pre p : settle_outcome pre p = Never -> p = NeverSettles.
Proof.
  destruct p as [t [r | e] |]; cbn; try discriminate; [|reflexivity].
  destruct (ok r); discriminate.
Qed.

Lemma unchecked_outcome_Never p : unchecked_outcome p = Never -> p = NeverSettles.
Proof. destruct p as [t [r | e] |]; cbn; try discriminate; reflexivity. Qed.

Lemma unchecked_outcome_Ok p u :
  unchecked_outcome p = Ok u -> exists t r, p = Settles t (Fulfilled r).
Proof. destruct p as [t [r | e] |]; cbn; try discriminate. intros _. now exists t, r. Qed.

(** The race is always settled, by the timer if by nothing else. *)
Lemma Promise_race_settles E p T e : exists t s, Promise_race E p T e = Settles t s.
Proof.
  unfold Promise_race. destruct p as [t s|]; [|now eexists _, _].
  destruct (t <? T); [now eexists _, _|].
  destruct (T <? t); [now eexists _, _|].
  destruct (timer_first_on_tie E); now eexists _, _.
Qed.

(** A response that wins the race is the response of the request. *)
Lemma Promise_race_fulfilled E p T e t r :
  Promise_race E p T e = Settles t (Fulfilled r) -> p = Settles t (Fulfilled r).
Proof.
  unfold Promise_race. destruct p as [t0 s|]; [|discriminate].
  destruct (t0 <? T); [easy|].
  destruct (T <? t0); [discriminate|].
  destruct (timer_first_on_tie E); [discriminate | easy].
Qed.

Lemma Promise_race_early E t s T e : t < T -> Promise_race E (Settles t s) T e = Settles t s.
Proof. intros H. unfold Promise_race. apply Z.ltb_lt in H. now rewrite H. Qed.

(** X3. No call issues more than one request, and the translation no more
    than one per language: nothing is ever sent twice. *)
Theorem request_count_bounded E c w :
  exists rqs,
    fetches (log (snd (run E c w))) = fetches (log w) ++ rqs /\
    (length rqs <= max_requests c)%nat.
Proof.
  destruct (run_has_shape E c w) as (rqs & Hlog & Hshape). exists rqs. split; [exact Hlog|].
  destruct Hshape as [[-> _] | Hshape]; [cbn; lia|].
  destruct c; cbn in Hshape |- *;
    try (destruct Hshape as (rq & -> & _); cbn; lia).
  destruct Hshape as (um & [(_ & -> & _) | (j & l & Hj & -> & _)]).
  - now rewrite length_fmap.
  - rewrite length_fmap, length_take. lia.
Qed.

(** X4. [create_map_image] never stays pending: whatever the remote side
    does, the call returns or throws. *)
Theorem create_map_image_always_settles E tc pc oc rid tid bid w :
  fst (create_map_image E tc pc oc rid tid bid w) <> Never.
Proof.
  destruct (run_has_shape E (CreateMapImage tc pc oc rid tid bid) w) as (rqs & _ & Hshape).
  cbn [run] in Hshape.
  destruct Hshape as [(_ & e & ->) | (rq & _ & ->)]; [discriminate|].
  cbn. intros Hn. apply settle_outcome_Never in Hn.
  destruct (Promise_race_settles E (server E (length (fetches (log w))) rq) TIMEOUT timeout_error)
    as (t & s & Hs).
  rewrite Hs in Hn. discriminate.
Qed.

(** X5. A call stays pending only on a request that is never answered: that
    request is the last one it has issued. *)
Theorem pending_means_unanswered E c w :
  fst (run E c w) = Never ->
  exists i rq,
    fetches (log (snd (run E c w))) !! (length (fetches (log w)) + i)%nat = Some rq /\
    server E (length (fetches (log w)) + i) rq = NeverSettles /\
    length (fetches (log (snd (run E c w)))) = (length (fetches (log w)) + S i)%nat.
Proof.
  intros Hnever.
  destruct (run_has_shape E c w) as (rqs & Hlog & Hshape). rewrite Hlog. rewrite Hnever in Hshape.
  destruct Hshape as [(_ & e & He) | Hshape]; [discriminate|].
  assert (forall f, (forall p, f p = Never -> p = NeverSettles) ->
                    single_shape E f (length (fetches (log w))) rqs Never ->
                    exists i rq,
                      (fetches (log w) ++ rqs) !! (length (fetches (log w)) + i)%nat = Some rq /\
                      server E (length (fetches (log w)) + i) rq = NeverSettles /\
                      length (fetches (log w) ++ rqs) = (length (fetches (log w)) + S i)%nat)
    as Hsingle.
  { intros f Hf (rq & -> & Ho). exists 0%nat, rq. rewrite lookup_added, Nat.add_0_r.
    split; [reflexivity|]. split; [now apply Hf | rewrite length_app; cbn; lia]. }
  destruct c; cbn in Hshape.
  - exfalso. destruct Hshape as (rq & _ & Ho). symmetry in Ho.
    apply settle_outcome_Never in Ho.
    destruct (Promise_race_settles E (server E (length (fetches (log w))) rq) TIMEOUT
                timeout_error) as (t & s & Hs).
    rewrite Hs in Ho. discriminate.
  - apply (Hsingle unchecked_outcome); [apply unchecked_outcome_Never | exact Hshape].
  - destruct Hshape as (um & [(Ho & _) | (j & l & Hj & -> & _ & Ho & _)]); [discriminate|].
    symmetry in Ho. apply settle_outcome_Never in Ho.
    exists j, (translate_post um record_id table_id base_id (default "gpt-4o" model) l).
    rewrite lookup_added, list_lookup_fmap, lookup_take_lt, Hj by lia.
    split; [reflexivity|]. split; [exact Ho|].
    rewrite length_app, length_fmap, length_take. apply lookup_lt_Some in Hj. lia.
  - apply (Hsingle unchecked_outcome); [apply unchecked_outcome_Never | exact Hshape].
  - eapply Hsingle; [|exact Hshape]. cbn. apply settle_outcome_Never.
  - eapply Hsingle; [|exact Hshape]. cbn. apply settle_outcome_Never.
Qed.

(** X6. A call that returns normally has issued every request it can issue
    (one, or one per language) and each was answered with a response; in
    the scripts that look at the status, with a 2xx one. *)
Theorem success_means_answered E c w :
  fst (run E c w) = Ok tt ->
  exists rqs,
    fetches (log (snd (run E c w))) = fetches (log w) ++ rqs /\
    length rqs = max_requests c /\
    forall i rq, rqs !! i = Some rq ->
      exists t r, server E (length (fetches (log w)) + i) rq = Settles t (Fulfilled r) /\
                  (checks_status c = true -> ok r = true).
Proof.
  intros Hok.
  destruct (run_has_shape E c w) as (rqs & Hlog & Hshape). exists rqs. split; [exact Hlog|].
  rewrite Hok in Hshape.
  destruct Hshape as [(_ & e & He) | Hshape]; [discriminate|].
  assert (forall f, (forall p, f p = Ok tt ->
                       exists t r, p = Settles t (Fulfilled r) /\
                                   (checks_status c = true -> ok r = true)) ->
                    single_shape E f (length (fetches (log w))) rqs (Ok tt) ->
                    length rqs = 1%nat /\
                    forall i rq, rqs !! i = Some rq ->
                      exists t r, server E (length (fetches (log w)) + i) rq
                                    = Settles t (Fulfilled r) /\
                                  (checks_status c = true -> ok r = true)) as Hsingle.
  { intros f Hf (rq & -> & Ho). split; [reflexivity|].
    intros [|i] rq' Hrq'; [|discriminate]. injection Hrq' as <-. rewrite Nat.add_0_r.
    symmetry in Ho. exact (Hf _ Ho). }
  destruct c; cbn [run_shape max_requests] in Hshape |- *.
  - eapply Hsingle; [|exact Hshape]. cbn. intros p Hp.
    apply settle_outcome_Ok in Hp as (t & r & Hrace & Hr).
    apply Promise_race_fulfilled in Hrace. now exists t, r.
  - eapply Hsingle; [|exact Hshape]. cbn. intros p Hp.
    apply unchecked_outcome_Ok in Hp as (t & r & ->). exists t, r. split; [reflexivity | discriminate].
  - destruct Hshape as (um & [(_ & -> & Hall) | (j & l & _ & _ & _ & Ho & Hne)]);
      [|congruence].
    split; [apply length_fmap|]. intros i rq Hrq.
    rewrite list_lookup_fmap in Hrq. destruct (languages !! i) as [l|] eqn:Hl; [|discriminate].
    injection Hrq as <-. destruct (Hall i l Hl) as (t & r & Hsrv & Hr). now exists t, r.
  - eapply Hsingle; [|exact Hshape]. cbn. intros p Hp.
    apply unchecked_outcome_Ok in Hp as (t & r & ->). exists t, r. split; [reflexivity | discriminate].
  - eapply Hsingle; [|exact Hshape]. cbn. intros p Hp.
    apply settle_outcome_Ok in Hp as (t & r & -> & Hr). now exists t, r.
  - eapply Hsingle; [|exact Hshape]. cbn. intros p Hp.
    apply settle_outcome_Ok in Hp as (t & r & -> & Hr). now exists t, r.
Qed.

(** X7. In every script a rejected request ends the call with the rejection
    itself (for the map image: when it comes before the timer): network
    errors reach the caller unchanged. *)
Theorem rejection_propagates E c w i rq t e :
  fetches (log (snd (run E c w))) !! (length (fetches (log w)) + i)%nat = Some rq ->
  server E (length (fetches (log w)) + i) rq = Settles t (Rejected e) ->
  arrives_in_time c t ->
  fst (run E c w) = Throw e.
Proof.
  intros Hlook Hsrv Htime.
  destruct (run_has_shape E c w) as (rqs & Hlog & Hshape).
  rewrite Hlog, lookup_added in Hlook.
  destruct Hshape as [(-> & _) | Hshape]; [discriminate|].
  assert (forall f, f (Settles t (Rejected e)) = Throw e ->
                    single_shape E f (length (fetches (log w))) rqs (fst (run E c w)) ->
                    fst (run E c w) = Throw e) as Hsingle.
  { intros f Hf (rq0 & -> & Ho). destruct i as [|i]; [|discriminate].
    injection Hlook as ->. rewrite Nat.add_0_r in Hsrv. now rewrite Ho, Hsrv. }
  destruct c; cbn [run_shape] in Hshape.
  - eapply Hsingle; [|exact Hshape]. unfold answer_outcome.
    now rewrite (Promise_race_early E t _ _ _ Htime).
  - now apply (Hsingle unchecked_outcome).
  - destruct Hshape as (um & [(_ & -> & Hall) | (j & l & Hj & -> & Hbefore & Ho & _)]).
    + rewrite list_lookup_fmap in Hlook.
      destruct (languages !! i) as [l|] eqn:Hl; [|discriminate]. injection Hlook as <-.
      destruct (Hall i l Hl) as (t' & r' & Hsrv' & _). congruence.
    + rewrite list_lookup_fmap in Hlook.
      destruct (take (S j) languages !! i) as [l'|] eqn:Hl; [|discriminate].
      injection Hlook as <-.
      pose proof (lookup_lt_Some _ _ _ Hl) as Hi. rewrite length_take in Hi.
      rewrite lookup_take_lt in Hl by lia.
      destruct (decide (i = j)) as [-> | Hne].
      * assert (l' = l) as -> by congruence. now rewrite Ho, Hsrv.
      * destruct (Hbefore i l') as (t' & r' & Hsrv' & _); [lia | exact Hl | congruence].
  - now apply (Hsingle unchecked_outcome).
  - eapply Hsingle; [|exact Hshape]. reflexivity.
  - eapply Hsingle; [|exact Hshape]. reflexivity.
Qed.

(** ** The store *)

#[local] Instance store_kept_preorder : PreOrder store_kept.
Proof.
  split; [intros w; now split|].
  intros a b c [B1 C1] [B2 C2]. split; congruence.
Qed.

Lemma store_kept_fetch E rq : preserves store_kept (fetch E rq).
Proof. intros w. split; [reflexivity|]. cbn. rewrite created_fields_app. apply app_nil_r. Qed.

(** X8. Only the sync job ever changes the record store: after a call of
    any other script, however it ends, the tables are what they were and no
    field has been asked for. *)
Theorem only_sync_touches_store E c w :
  provisions c = false ->
  base (snd (run E c w)) = base w /\
  created_fields (log (snd (run E c w))) = created_fields (log w).
Proof.
  intros Hc. revert w. change (preserves store_kept (run E c)).
  destruct c; try discriminate Hc; cbn [run];
    unfold create_map_image, ai_generate, translate_i18n, translateToLanguage, google_search,
      crawl_url_content.
  all: try solve [preserve_with ltac:(apply store_kept_fetch)].
  preserve. apply preserves_forM_; preorder. intros l _.
  preserve_with ltac:(apply store_kept_fetch).
Qed.

(** The sync job when the store rejects the new field. *)
Lemma sync_run_rejected E w lang ac rid tid bid h t e :
  find_table tid (base w) = Some (h, t) ->
  has_column (post_id_column_of lang) (columns t) = false ->
  create_field_error E (tbl_id t) (post_id_column_of lang) "number" = Some e ->
  sync_to_wordpress E lang ac rid tid bid w = (Throw e, w).
Proof.
  intros Ht Hc Herr. pose proof (find_table_lookup _ _ _ _ Ht) as Hh.
  unfold sync_to_wordpress. cbv zeta.
  rewrite (bind_Ok _ _ _ _ _ (getTable_found _ _ _ _ Ht)).
  rewrite (bind_Ok _ _ _ _ _ (selectRecordAsync_found _ rid _ _ Hh)).
  apply bind_Throw. unfold provision_post_id, getConfigAsync.
  rewrite (bind_Ok _ _ _ (columns t) w);
    [|now rewrite (bind_Ok _ _ _ _ _ (the_table_found _ _ _ Hh))].
  rewrite Hc. cbn [negb]. apply bind_Throw. unfold createFieldAsync.
  rewrite (bind_Ok _ _ _ _ _ (the_table_found _ _ _ Hh)). now rewrite Herr.
Qed.

Lemma sync_run_no_table E w lang ac rid tid bid :
  find_table tid (base w) = None ->
  snd (sync_to_wordpress E lang ac rid tid bid w) = w.
Proof.
  intros Ht. unfold sync_to_wordpress, bind, getTable. now rewrite Ht.
Qed.

(** X9. All the sync job ever does to the store is to append one column,
    [post_id_<lang>] of type "number", to a table that lacks it: rows, other
    columns and other tables are never touched, and a table that has the
    column is left as it is. *)
Theorem sync_only_appends_post_id_column E lang ac rid tid bid w :
  let w' := snd (sync_to_wordpress E lang ac rid tid bid w) in
  (base w' = base w /\ created_fields (log w') = created_fields (log w))
  \/
  (exists h t,
     find_table tid (base w) = Some (h, t) /\
     has_column (post_id_column_of lang) (columns t) = false /\
     base w' = <[h := add_column {| col_name := post_id_column_of lang;
                                    col_type := "number" |} t]> (base w) /\
     created_fields (log w') =
       created_fields (log w) ++ [(tbl_id t, post_id_column_of lang, "number")]).
Proof.
  intros w'. subst w'.
  destruct (find_table tid (base w)) as [[h t]|] eqn:Ht.
  2: { left. now rewrite (sync_run_no_table E w lang ac rid tid bid Ht). }
  destruct (has_column (post_id_column_of lang) (columns t)) eqn:Hc.
  { left. rewrite (sync_run_present E w lang ac rid tid bid h t Ht Hc).
    destruct (sync_send_network_only E (snapshot (field_names t) <$> find_row rid t)
                lang ac rid tid bid w) as (Hb & evs & Hl & Hcf).
    split; [exact Hb|]. rewrite Hl, created_fields_app, Hcf. apply app_nil_r. }
  destruct (create_field_error E (tbl_id t) (post_id_column_of lang) "number") as [e|] eqn:Herr.
  { left. now rewrite (sync_run_rejected E w lang ac rid tid bid h t e Ht Hc Herr). }
  right. exists h, t. split; [reflexivity|]. split; [exact Hc|].
  rewrite (sync_run_absent E w lang ac rid tid bid h t Ht Hc Herr).
  destruct (sync_send_network_only E
              (snapshot (field_names t ++ [post_id_column_of lang]) <$> find_row rid t)
              lang ac rid tid bid (with_field w h t (post_id_column_of lang) "number"))
    as (Hb & evs & Hl & Hcf).
  split; [exact Hb|].
  rewrite Hl. cbn [with_field log]. rewrite !created_fields_app, Hcf. cbn. now rewrite app_nil_r.
Qed.

(** X10. When the store rejects the creation of the post-id field, the sync
    job throws the store's error and does nothing else: no field, no
    request. *)
Theorem sync_creation_rejected E w lang ac rid tid bid h t e :
  find_table tid (base w) = Some (h, t) ->
  has_column (post_id_column_of lang) (columns t) = false ->
  create_field_error E (tbl_id t) (post_id_column_of lang) "number" = Some e ->
  sync_to_wordpress E lang ac rid tid bid w = (Throw e, w).
Proof. exact (sync_run_rejected E w lang ac rid tid bid h t e). Qed.

(** ** The post of the sync job *)

Lemma obj_get_obj_set k k' v o :
  obj_get k (JObj (obj_set k' v o)) =
    if String.eqb k' k then Some v else obj_get k (JObj o).
Proof.
  unfold obj_get. induction o as [|[k0 v0] o IH]; cbn.
  - now destruct (String.eqb k' k).
  - destruct (String.eqb k0 k') eqn:H0; cbn.
    + apply String.eqb_eq in H0 as ->. now destruct (String.eqb k' k).
    + destruct (String.eqb k0 k) eqn:H1; cbn.
      * apply String.eqb_eq in H1 as ->.
        destruct (String.eqb k' k) eqn:H2; [|reflexivity].
        apply String.eqb_eq in H2 as ->. now rewrite String.eqb_refl in H0.
      * exact IH.
Qed.

(** X11. In the post the sync job sends, the members it writes itself
    ([id], [status: 'publish'], [author], [categories], [tags], [meta]) win
    over members of the same name in the content, and every other member of
    the content is passed on as it is. *)
Theorem wp_post_explicit_members_win post_data post_id author_id k :
  obj_get k (wp_post post_data post_id author_id) =
    match obj_get k (JObj (wp_explicit post_id author_id)) with
    | Some v => Some v
    | None => obj_get k (JObj (spread post_data))
    end.
Proof.
  unfold wp_post. rewrite !obj_get_obj_set. unfold wp_explicit, obj_get. cbn [find fst snd fmap option_fmap option_map].
  destruct (String.eqb "meta" k) eqn:H1; [apply String.eqb_eq in H1 as <-; reflexivity|].
  destruct (String.eqb "tags" k) eqn:H2; [apply String.eqb_eq in H2 as <-; reflexivity|].
  destruct (String.eqb "categories" k) eqn:H3; [apply String.eqb_eq in H3 as <-; reflexivity|].
  destruct (String.eqb "author" k) eqn:H4; [apply String.eqb_eq in H4 as <-; reflexivity|].
  destruct (String.eqb "status" k) eqn:H5; [apply String.eqb_eq in H5 as <-; reflexivity|].
  destruct (String.eqb "id" k) eqn:H6; reflexivity.
Qed.

(** ** The sync job on a record it can read *)

(** The script from [const post_id = ...] on, once the four cells are read. *)
Lemma sync_send_run E lang ac rid tid bid rc1 w1 :
  lang ∈ rec_fields rc1 -> "post_id_en" ∈ rec_fields rc1 -> ac ∈ rec_fields rc1 ->
  post_id_column_of lang ∈ rec_fields rc1 ->
  sync_send E (Some rc1) lang ac rid tid bid w1 =
    if negb (truthy (cell rc1 lang)) then (Throw (Error "No content found"), w1)
    else if negb (truthy (cell rc1 ac)) then (Throw (Error "No author ID found"), w1)
    else
      match JSON_parse E (cell rc1 lang) with
      | None => (Throw (SyntaxError "Unexpected token in JSON"), w1)
      | Some JNull => (Throw (TypeError "Cannot convert undefined or null to object"), w1)
      | Some post_data =>
          (settle_outcome "API request failed with status "
             (server E (length (fetches (log w1)))
                (wp_request post_data (cell rc1 (post_id_column_of lang))
                   (cell rc1 "post_id_en") (cell rc1 ac) lang rid tid bid)),
           sent w1 (wp_request post_data (cell rc1 (post_id_column_of lang))
                      (cell rc1 "post_id_en") (cell rc1 ac) lang rid tid bid))
      end.
Proof.
  intros Hl He Ha Hp. unfold sync_send. cbv zeta.
  rewrite (getCellValue_loaded _ _ Hp), bind_lift_inr.
  rewrite (getCellValue_loaded _ _ Hl), bind_lift_inr.
  rewrite (getCellValue_loaded _ _ He), bind_lift_inr.
  rewrite (getCellValue_loaded _ _ Ha), bind_lift_inr.
  destruct (negb (truthy (cell rc1 lang))); [reflexivity|].
  destruct (negb (truthy (cell rc1 ac))); [reflexivity|].
  destruct (JSON_parse E (cell rc1 lang)) as [[]|]; try reflexivity;
    apply (checked_post_run E "API request failed with status ").
Qed.

(** The sync job on a record that exists with content and author. *)
Lemma sync_run_valid E w lang ac rid tid bid rc :
  current_record w tid rid = Some rc ->
  store_accepts E w (SyncToWordpress lang ac rid tid bid) ->
  lang ∈ rec_fields rc -> ac ∈ rec_fields rc ->
  "post_id_en" ∈ rec_fields rc \/ lang = "en" ->
  truthy (cell rc lang) = true -> truthy (cell rc ac) = true ->
  exists w1,
    (w1 = w \/ exists h t, w1 = with_field w h t (post_id_column_of lang) "number") /\
    sync_to_wordpress E lang ac rid tid bid w =
      match JSON_parse E (cell rc lang) with
      | None => (Throw (SyntaxError "Unexpected token in JSON"), w1)
      | Some JNull => (Throw (TypeError "Cannot convert undefined or null to object"), w1)
      | Some post_data =>
          (settle_outcome "API request failed with status "
             (server E (length (fetches (log w)))
                (wp_request post_data (cell rc (post_id_column_of lang))
                   (cell rc "post_id_en") (cell rc ac) lang rid tid bid)),
           sent w1 (wp_request post_data (cell rc (post_id_column_of lang))
                      (cell rc "post_id_en") (cell rc ac) lang rid tid bid))
      end.
Proof.
  intros Hrc Hacc Hl Ha Hen Hcontent Hauthor.
  destruct (sync_open E w lang ac rid tid bid rc Hrc Hacc)
    as (rc1 & w1 & Hopen & Hcells & Hsub & Hpid & Hw1).
  assert (forall f, cell rc1 f = cell rc f) as Hcell.
  { intros f. unfold cell. now rewrite Hcells. }
  assert (fetches (log w1) = fetches (log w)) as Hfetches.
  { destruct Hw1 as [[-> _] | (_ & h & t & _ & ->)]; [reflexivity | apply fetches_with_field]. }
  exists w1. split.
  { destruct Hw1 as [[-> _] | (_ & h & t & _ & ->)]; [now left | right; now exists h, t]. }
  rewrite Hopen, sync_send_run.
  - rewrite !Hcell, Hcontent, Hauthor, Hfetches. reflexivity.
  - now apply Hsub.
  - destruct Hen as [Hen | ->]; [now apply Hsub | exact Hpid].
  - now apply Hsub.
  - exact Hpid.
Qed.

(** X12. When the content of the record is not JSON ([JSON.parse] throws),
    or is the JSON [null], the sync job throws a [SyntaxError], or a
    [TypeError], and sends nothing, although content and author have passed
    their tests. *)
Theorem sync_unparsable_content E w lang ac rid tid bid rc :
  current_record w tid rid = Some rc ->
  store_accepts E w (SyncToWordpress lang ac rid tid bid) ->
  lang ∈ rec_fields rc -> ac ∈ rec_fields rc ->
  "post_id_en" ∈ rec_fields rc \/ lang = "en" ->
  truthy (cell rc lang) = true -> truthy (cell rc ac) = true ->
  JSON_parse E (cell rc lang) = None \/ JSON_parse E (cell rc lang) = Some JNull ->
  exists m w',
    (sync_to_wordpress E lang ac rid tid bid w = (Throw (SyntaxError m), w') \/
     sync_to_wordpress E lang ac rid tid bid w = (Throw (TypeError m), w')) /\
    fetches (log w') = fetches (log w).
Proof.
  intros Hrc Hacc Hl Ha Hen Hcontent Hauthor Hparse.
  destruct (sync_run_valid E w lang ac rid tid bid rc Hrc Hacc Hl Ha Hen Hcontent Hauthor)
    as (w1 & Hw1 & Hrun).
  assert (fetches (log w1) = fetches (log w)) as Hfetches.
  { destruct Hw1 as [-> | (h & t & ->)]; [reflexivity | apply fetches_with_field]. }
  destruct Hparse as [Hp | Hp]; rewrite Hp in Hrun; eexists _, w1; (split; [|exact Hfetches]);
    [left | right]; exact Hrun.
Qed.


(** ** The system prompt of ai_generate *)

Lemma filter_by_name E name (rs : list row) w :
  filterM (fun r => let* n := lift (getCellValueAsString E (Some r) "Name") in
                    ret (String.eqb n name))
    (snapshot ["Name"; "Prompt"] <$> rs) w =
  (Ok (snapshot ["Name"; "Prompt"] <$>
       List.filter (fun r => String.eqb (row_string E r "Name") name) rs), w).
Proof.
  induction rs as [|r rs IH]; [reflexivity|].
  cbn [fmap list_fmap filterM List.filter].
  rewrite (bind_Ok _ _ _ (String.eqb (row_string E r "Name") name) w).
  - rewrite (bind_Ok _ _ _ _ _ IH). unfold ret.
    now destruct (String.eqb (row_string E r "Name") name).
  - rewrite (getCellValueAsString_loaded E (snapshot ["Name"; "Prompt"] r) "Name")
      by apply list_elem_of_here.
    now rewrite bind_lift_inr.
Qed.

(** [getSystemPrompt] returns the Prompt cell of the first record whose
    Name is the one asked for. *)
Lemma ai_getSystemPrompt_first E w name h t before r after :
  find_table PROMPTS_TABLE_NAME (base w) = Some (h, t) ->
  "Name" ∈ field_names t -> "Prompt" ∈ field_names t ->
  rows t = before ++ r :: after ->
  (forall r', r' ∈ before -> row_string E r' "Name" <> name) ->
  row_string E r "Name" = name ->
  ai_getSystemPrompt E name w = (Ok (default JNull (row_cells r !! "Prompt")), w).
Proof.
  intros Ht Hn Hp Hrows Hbefore Hr. unfold ai_getSystemPrompt.
  rewrite (bind_Ok _ _ _ _ _ (getTable_found _ _ _ _ Ht)).
  rewrite (bind_Ok _ _ _ _ _ (selectRecordsAsync_fields_found h ["Name"; "Prompt"] w t
                                 (find_table_lookup _ _ _ _ Ht)
                                 ltac:(intros f [-> | [-> | []%elem_of_nil]%elem_of_cons]%elem_of_cons;
                                       assumption))).
  rewrite (bind_Ok _ _ _ _ _ (filter_by_name E name (rows t) w)).
  rewrite Hrows, List.filter_app. cbn [List.filter].
  replace (List.filter _ before) with (@nil row).
  2: { symmetry. clear Hrows. induction before as [|r' before IH]; [reflexivity|]. cbn.
       rewrite (proj2 (String.eqb_neq _ _) (Hbefore r' (list_elem_of_here _ _))).
       apply IH. intros r'' Hr''. apply Hbefore. now apply list_elem_of_further. }
  rewrite (proj2 (String.eqb_eq _ _) Hr). cbn.
  rewrite bool_decide_eq_true_2 by (apply list_elem_of_further, list_elem_of_here).
  reflexivity.
Qed.

(** X14. With several prompts of the same name, [ai_generate] uses the
    first: it sends one request whose [system_prompt] is the Prompt cell of
    the first record named so, with [model] "gpt-4o" and
    [openai_json_format] false when the caller leaves them out, and ends as
    the answer ends, whatever its status. *)
Theorem ai_generate_uses_first_prompt E w ics name oc rid tid bid m j h t before r after rc :
  find_table PROMPTS_TABLE_NAME (base w) = Some (h, t) ->
  "Name" ∈ field_names t -> "Prompt" ∈ field_names t ->
  rows t = before ++ r :: after ->
  (forall r', r' ∈ before -> row_string E r' "Name" <> name) ->
  row_string E r "Name" = name ->
  truthy (default JNull (row_cells r !! "Prompt")) = true ->
  current_record w tid rid = Some rc ->
  (forall c, c ∈ ics -> c ∈ rec_fields rc) ->
  let rq := post AI_API_ENDPOINT
              (JObj [("base_id", JStr bid); ("table_id", JStr tid); ("record_id", JStr rid);
                     ("output_column", JStr oc);
                     ("model", JStr (default "gpt-4o" m));
                     ("system_prompt", default JNull (row_cells r !! "Prompt"));
                     ("user_msg",
                      JStr (join nl ((fun c => xml_tag c (cell_string E rc c)) <$> ics)));
                     ("openai_json_format", JBool (default false j))]) in
  ai_generate E ics name oc rid tid bid m j w =
    (unchecked_outcome (server E (length (fetches (log w))) rq), sent w rq).
Proof.
  intros Ht Hn Hp Hrows Hbefore Hr Htruthy Hrc Hall rq.
  unfold ai_generate. cbv zeta.
  rewrite (bind_Ok _ _ _ _ _ (ai_getSystemPrompt_first E w name h t before r after
                                 Ht Hn Hp Hrows Hbefore Hr)).
  rewrite Htruthy. cbn [negb].
  rewrite (open_record _ _ _ _ _ Hrc).
  rewrite (bind_Ok _ _ _ _ _ (map_fragments E rc ics w Hall)).
  rewrite (bind_Ok _ _ _ _ _ (fetch_run E _ w)).
  fold (ai_body oc rid tid bid (default "gpt-4o" m) (default JNull (row_cells r !! "Prompt"))
          (join nl ((fun c => xml_tag c (cell_string E rc c)) <$> ics)) (default false j)) in rq.
  fold rq. fold (sent w rq).
  destruct (server E (length (fetches (log w))) rq) as [t0 [r0 | e] |]; reflexivity.
Qed.

(** X15. When the first record of that name has an empty Prompt,
    [ai_generate] fails as for an unknown name and sends nothing, even if a
    later record of the same name has a prompt. *)
Theorem ai_generate_first_prompt_empty E w ics name oc rid tid bid m j h t before r after :
  find_table PROMPTS_TABLE_NAME (base w) = Some (h, t) ->
  "Name" ∈ field_names t -> "Prompt" ∈ field_names t ->
  rows t = before ++ r :: after ->
  (forall r', r' ∈ before -> row_string E r' "Name" <> name) ->
  row_string E r "Name" = name ->
  truthy (default JNull (row_cells r !! "Prompt")) = false ->
  ai_generate E ics name oc rid tid bid m j w =
    (Throw (Error ("Failed to retrieve system prompt: " +:+ name)), w).
Proof.
  intros Ht Hn Hp Hrows Hbefore Hr Hfalsy. unfold ai_generate. cbv zeta.
  rewrite (bind_Ok _ _ _ _ _ (ai_getSystemPrompt_first E w name h t before r after
                                 Ht Hn Hp Hrows Hbefore Hr)).
  now rewrite Hfalsy.
Qed.

(** ** google_search and crawl_url_content on a record they can read *)

(** X16. With keywords in the input cell, [google_search] sends one request
    carrying the cell as a string and ends as the answer ends: it returns
    normally on every response, whatever the status. *)
Theorem google_search_sends_keywords E w ic oc rid tid bid rc :
  current_record w tid rid = Some rc -> ic ∈ rec_fields rc ->
  cell_string E rc ic <> "" ->
  let rq := post SEARCH_API_ENDPOINT
              (JObj [("base_id", JStr bid); ("table_id", JStr tid); ("record_id", JStr rid);
                     ("output_column", JStr oc);
                     ("keywords", JStr (cell_string E rc ic))]) in
  google_search E ic oc rid tid bid w =
    (unchecked_outcome (server E (length (fetches (log w))) rq), sent w rq) /\
  forall t r, server E (length (fetches (log w))) rq = Settles t (Fulfilled r) ->
              fst (google_search E ic oc rid tid bid w) = Ok tt.
Proof.
  intros Hrc Hic Hkw rq.
  assert (google_search E ic oc rid tid bid w =
            (unchecked_outcome (server E (length (fetches (log w))) rq), sent w rq)) as Hrun.
  { unfold google_search. rewrite (open_record _ _ _ _ _ Hrc).
    rewrite (getCellValueAsString_loaded E rc ic Hic), bind_lift_inr.
    unfold truthy_str. rewrite (proj2 (String.eqb_neq _ _) Hkw). cbn [negb].
    rewrite (bind_Ok _ _ _ _ _ (fetch_run E _ w)).
    fold (search_body (cell_string E rc ic) oc rid tid bid) in rq. fold rq. fold (sent w rq).
    destruct (server E (length (fetches (log w))) rq) as [t0 [r0 | e] |]; reflexivity. }
  split; [exact Hrun|]. intros t r Hsrv. now rewrite Hrun, Hsrv.
Qed.

(** X17. With a value in the input cell, [crawl_url_content] sends one
    request carrying the cell value as it is (a string or not) and ends as
    the status of the answer decides. *)
Theorem crawl_url_content_sends_url E w ic oc rid tid bid rc :
  current_record w tid rid = Some rc -> ic ∈ rec_fields rc ->
  truthy (cell rc ic) = true ->
  let rq := post CRAWL_URL_API_ENDPOINT
              (JObj [("base_id", JStr bid); ("table_id", JStr tid); ("record_id", JStr rid);
                     ("output_column", JStr oc);
                     ("url", cell rc ic)]) in
  crawl_url_content E ic oc rid tid bid w =
    (settle_outcome "API request failed with status " (server E (length (fetches (log w))) rq),
     sent w rq).
Proof.
  intros Hrc Hic Hurl rq.
  unfold crawl_url_content. rewrite (open_records _ _ _ _ _ Hrc). cbn [head].
  rewrite (getCellValue_loaded rc ic Hic), bind_lift_inr, Hurl. cbn [negb].
  apply (checked_post_run E "API request failed with status ").
Qed.

(** ** A record that does not exist *)

Lemma bind_lift_inl {A B} e (k : A -> M B) w : bind (lift (inl e)) k w = (Throw e, w).
Proof. reflexivity. Qed.

Lemma sync_send_no_record E lang ac rid tid bid w :
  exists m, sync_send E None lang ac rid tid bid w = (Throw (TypeError m), w).
Proof. eexists. reflexivity. Qed.

(** X18. When the table has no record of the given id, every script that
    reads a cell of its record throws a [TypeError] (it reads through
    [null] or [undefined]) and sends nothing.  The four scripts other than
    the sync job leave the world as it was.  The sync job has by then
    provisioned its field: on a table that lacked [post_id_<lang>] the
    world it leaves is the one with that number column added and the
    creation logged; on a table that had it, the world is as it was. *)
Theorem missing_record_is_type_error E w c h t :
  find_table (table_id_of c) (base w) = Some (h, t) ->
  find_row (record_id_of c) t = None ->
  always_reads_record c = true ->
  store_accepts E w c ->
  exists m,
    run E c w =
      (Throw (TypeError m),
       match c with
       | SyncToWordpress lang _ _ _ _ =>
           if has_column (post_id_column_of lang) (columns t) then w
           else {| base := <[h := add_column {| col_name := post_id_column_of lang;
                                                col_type := "number" |} t]> (base w);
                   log := log w ++ [CreateField (tbl_id t) (post_id_column_of lang) "number"] |}
       | _ => w
       end) /\
    fetches (log (snd (run E c w))) = fetches (log w).
Proof.
  intros Ht Hr Hc Hacc. pose proof (find_table_lookup _ _ _ _ Ht) as Hh.
  destruct c as [tc pc oc rid tid bid | | ic ls rid tid bid m | ic oc rid tid bid
                | ic oc rid tid bid | lang ac rid tid bid];
    try discriminate Hc; cbn [run table_id_of record_id_of] in *.
  - assert (exists m, create_map_image E tc pc oc rid tid bid w = (Throw (TypeError m), w))
      as (m & Hrun).
    { eexists. unfold create_map_image.
      rewrite (bind_Ok _ _ _ _ _ (getTable_found _ _ _ _ Ht)).
      rewrite (bind_Ok _ _ _ _ _ (selectRecordsAsync_ids_found _ rid _ _ Hh)).
      rewrite Hr. reflexivity. }
    exists m. now rewrite Hrun.
  - assert (exists m', translate_i18n E ic ls rid tid bid m w = (Throw (TypeError m'), w))
      as (m' & Hrun).
    { eexists. unfold translate_i18n. cbv zeta.
      rewrite (bind_Ok _ _ _ _ _ (getTable_found _ _ _ _ Ht)).
      rewrite (bind_Ok _ _ _ _ _ (selectRecordAsync_found _ rid _ _ Hh)).
      rewrite Hr. reflexivity. }
    exists m'. now rewrite Hrun.
  - assert (exists m, google_search E ic oc rid tid bid w = (Throw (TypeError m), w))
      as (m & Hrun).
    { eexists. unfold google_search.
      rewrite (bind_Ok _ _ _ _ _ (getTable_found _ _ _ _ Ht)).
      rewrite (bind_Ok _ _ _ _ _ (selectRecordAsync_found _ rid _ _ Hh)).
      rewrite Hr. reflexivity. }
    exists m. now rewrite Hrun.
  - assert (exists m, crawl_url_content E ic oc rid tid bid w = (Throw (TypeError m), w))
      as (m & Hrun).
    { eexists. unfold crawl_url_content.
      rewrite (bind_Ok _ _ _ _ _ (getTable_found _ _ _ _ Ht)).
      rewrite (bind_Ok _ _ _ _ _ (selectRecordsAsync_ids_found _ rid _ _ Hh)).
      rewrite Hr. reflexivity. }
    exists m. now rewrite Hrun.
  - destruct (has_column (post_id_column_of lang) (columns t)) eqn:Hcol.
    + rewrite (sync_run_present E w lang ac rid tid bid h t Ht Hcol), Hr.
      cbn [fmap option_fmap option_map].
      destruct (sync_send_no_record E lang ac rid tid bid w) as (m & ->).
      now exists m.
    + assert (create_field_error E (tbl_id t) (post_id_column_of lang) "number" = None) as Hok.
      { apply Hacc. unfold table_of. now rewrite Ht. }
      rewrite (sync_run_absent E w lang ac rid tid bid h t Ht Hcol Hok), Hr.
      cbn [fmap option_fmap option_map].
      destruct (sync_send_no_record E lang ac rid tid bid
                  (with_field w h t (post_id_column_of lang) "number")) as (m & ->).
      exists m. split; [reflexivity|].
      apply (fetches_with_field w h t (post_id_column_of lang) "number").
Qed.

(** ** The second copy of translate_i18n *)

(** X19. The earlier copy of [translate_i18n] runs its batch the same way:
    it throws before sending anything, or sends the requests of its
    languages in order, one at a time, and either returns after a success
    for each or ends at the first answer that is not a success; its
    requests carry no [openai_json_format]. *)
Theorem part000_translate_runs_in_order E ic ls rid tid bid m w :
  exists rqs,
    fetches (log (snd (Part000.translate_i18n E ic ls rid tid bid m w))) =
      fetches (log w) ++ rqs /\
    ((rqs = [] /\ exists e, fst (Part000.translate_i18n E ic ls rid tid bid m w) = Throw e) \/
     exists um,
       batch_shape E (Part000.translate_post um rid tid bid (default "gpt-4o" m)) ls
         (length (fetches (log w))) rqs
         (fst (Part000.translate_i18n E ic ls rid tid bid m w))) /\
    Forall (fun rq => obj_get "openai_json_format" (body rq) = None /\
                      exists l, l ∈ ls /\
                        obj_get "output_column" (body rq) = Some (JStr (lang_column l))) rqs.
Proof.
  assert (trace_spec
            (fun n rqs o =>
               (rqs = [] /\ exists e, o = Throw e) \/
               exists um,
                 batch_shape E (Part000.translate_post um rid tid bid (default "gpt-4o" m)) ls
                   n rqs o)
            (Part000.translate_i18n E ic ls rid tid bid m)) as Hshape.
  { unfold Part000.translate_i18n. cbv zeta. shaping_with fail.
    eapply trace_weaken;
      [|exact (checked_loop_shape E (Part000.translate_post _ rid tid bid (default "gpt-4o" m)) ls)].
    intros ? ? ? H. right. eexists. exact H. }
  destruct (Hshape w) as (rqs & Hlog & Hs). exists rqs. split; [exact Hlog|].
  split; [exact Hs|].
  destruct Hs as [[-> _] | (um & [(_ & -> & _) | (j & l & _ & -> & _)])]; [constructor| |].
  - apply Forall_fmap, Forall_forall. intros l Hl. split; [reflexivity|]. now exists l.
  - apply Forall_fmap, Forall_forall. intros l' Hl. split; [reflexivity|].
    exists l'. split; [|reflexivity]. apply list_elem_of_lookup in Hl as (i & Hi).
    apply lookup_take_Some in Hi as [Hi _]. apply list_elem_of_lookup. now exists i.
Qed.

(** ** Values that count as missing *)

(** X20. The tests of [create_map_image], [crawl_url_content] and
    [sync_to_wordpress] are tests of truthiness of the cell value: a tested
    cell holding [0], [false] or the empty string is refused like an empty
    cell, with the [Error] of that test and without a request.  The sync
    job tests the content first: with content present, a falsy author id
    (such as 0) gives exactly "No author ID found".  [google_search] tests
    the cell read as a string and refuses it when that string is empty. *)
Theorem falsy_input_rejected E w c rc f :
  current_record w (table_id_of c) (record_id_of c) = Some rc ->
  (forall x, x ∈ read_fields c -> x ∈ rec_fields rc) ->
  store_accepts E w c ->
  f ∈ validated_fields c ->
  falsy_input E c rc f ->
  exists w',
    run E c w = (Throw (Error (missing_input_message c rc)), w') /\
    fetches (log w') = fetches (log w).
Proof.
  intros Hrc Hfields Hacc Hf Hfalsy.
  destruct c as [tc pc oc rid tid bid | | | ic oc rid tid bid | ic oc rid tid bid
                | lang ac rid tid bid];
    cbn [table_id_of record_id_of validated_fields read_fields input_fields falsy_input
         missing_input_message run] in *.
  - exists w. split; [|reflexivity].
    unfold create_map_image. rewrite (open_records _ _ _ _ _ Hrc). cbn [head].
    rewrite (getCellValue_loaded rc tc), bind_lift_inr by (apply Hfields; in_list).
    rewrite (getCellValue_loaded rc pc), bind_lift_inr by (apply Hfields; in_list).
    assert (truthy (cell rc tc) = false \/ truthy (cell rc pc) = false) as [-> | ->].
    { apply elem_of_cons in Hf as [-> | Hf]; [now left|].
      apply list_elem_of_singleton in Hf as ->. now right. }
    + reflexivity.
    + now rewrite orb_true_r.
  - inversion Hf.
  - inversion Hf.
  - apply list_elem_of_singleton in Hf as ->.
    exists w. split; [|reflexivity].
    unfold google_search. rewrite (open_record _ _ _ _ _ Hrc).
    rewrite (getCellValueAsString_loaded E rc ic), bind_lift_inr by (apply Hfields; in_list).
    now rewrite Hfalsy.
  - apply list_elem_of_singleton in Hf as ->.
    exists w. split; [|reflexivity].
    unfold crawl_url_content. rewrite (open_records _ _ _ _ _ Hrc). cbn [head].
    rewrite (getCellValue_loaded rc ic), bind_lift_inr by (apply Hfields; in_list).
    now rewrite Hfalsy.
  - destruct (sync_open E w lang ac rid tid bid rc Hrc Hacc)
      as (rc1 & w1 & Hopen & Hcells & Hsub & Hpid & Hw1).
    assert (forall x, cell rc1 x = cell rc x) as Hcell.
    { intros x. unfold cell. now rewrite Hcells. }
    exists w1. split.
    + rewrite Hopen, sync_send_run;
        [| apply Hsub, Hfields; in_list | apply Hsub, Hfields; in_list
         | apply Hsub, Hfields; in_list | exact Hpid].
      rewrite !Hcell.
      apply elem_of_cons in Hf as [-> | Hf].
      * now rewrite Hfalsy.
      * apply list_elem_of_singleton in Hf as ->.
        destruct (truthy (cell rc lang)); cbn [negb]; [now rewrite Hfalsy | reflexivity].
    + destruct Hw1 as [[-> _] | (_ & h & t & _ & ->)]; [reflexivity | apply fetches_with_field].
Qed.
(** * The scripts on the sample base *)

(** A member of a list of literals. *)
Ltac decide_in :=
  match goal with |- ?P => apply (bool_decide_eq_true_1 P) end; vm_compute; reflexivity.

(** Every member of a list of literals is in another. *)
Ltac each_in :=
  let x := fresh "x" in
  let Hx := fresh "Hx" in
  intros x Hx;
  repeat (apply elem_of_cons in Hx as [-> | Hx]);
  try (now apply elem_of_nil in Hx);
  decide_in.

Import Demo.

(** [ai_generate] with an input column whose cell is empty: the request is
    sent all the same, so C1 does not hold of every variant. *)
Lemma ai_generate_sends_empty_input :
  ~ rejects_empty_inputs (answering 350 200) world0
      (AiGenerate ["Topic"] "summarise" "Summary" "rec2" "tblPosts" "app1" None None).
Proof.
  intros H. destruct (H snap2 "Topic") as (e & w' & Hrun & _).
  - reflexivity.
  - decide_in.
  - reflexivity.
  - vm_compute in Hrun. discriminate Hrun.
Qed.

Lemma missing_input_rejected_witness :
  (exists m w',
     run (answering 350 200) (CreateMapImage "Template" "Prompt" "Map" "rec2" "tblPosts" "app1")
       world0 = (Throw (Error m), w') /\
     m ∈ ["Missing template or prompt"] /\ fetches (log w') = fetches (log world0)) /\
  (exists m w',
     run (answering 350 200) (SyncToWordpress "fr" "Author" "rec2" "tblPosts" "app1")
       world0 = (Throw (Error m), w') /\
     m ∈ ["No content found"; "No author ID found"] /\
     fetches (log w') = fetches (log world0)).
Proof.
  split.
  - apply (missing_input_rejected (answering 350 200) world0
             (CreateMapImage "Template" "Prompt" "Map" "rec2" "tblPosts" "app1") snap2 "Prompt");
      [reflexivity | each_in | exact I | decide_in | reflexivity].
  - apply (missing_input_rejected (answering 350 200) world0
             (SyncToWordpress "fr" "Author" "rec2" "tblPosts" "app1") snap2 "Author");
      [reflexivity | each_in | intros t _; reflexivity | decide_in | reflexivity].
Defined.


(** [google_search] answered with a 500 returns normally, so C3 does not
    hold of every variant. *)
Lemma google_search_ignores_status :
  ~ fails_on_bad_status (answering 350 500) world0
      (GoogleSearch "Keywords" "Results" "rec1" "tblPosts" "app1").
Proof.
  intros H.
  destruct (H 0%nat
              (post SEARCH_API_ENDPOINT
                 (search_body "rocq prover" "Results" "rec1" "tblPosts" "app1"))
              350 {| status := 500 |}) as (e & He).
  - reflexivity.
  - reflexivity.
  - reflexivity.
  - exact I.
  - vm_compute in He. discriminate He.
Qed.

Lemma bad_status_raises_witness :
  fst (run (answering 350 500) (CrawlUrlContent "Link" "Text" "rec1" "tblPosts" "app1") world0)
    = Throw (Error "API request failed with status 500") /\
  fst (run second_fails (TranslateI18n "Page" [fr; de; fr] "rec1" "tblPosts" "app1" None) world0)
    = Throw (Error "HTTP error! status: 503").
Proof.
  split.
  - apply (bad_status_raises (answering 350 500) world0
             (CrawlUrlContent "Link" "Text" "rec1" "tblPosts" "app1") 0%nat
             (post CRAWL_URL_API_ENDPOINT
                (crawl_body (JStr "https://example.org") "Text" "rec1" "tblPosts" "app1"))
             350 {| status := 500 |});
      [reflexivity | reflexivity | reflexivity | reflexivity | exact I].
  - apply (bad_status_raises second_fails world0
             (TranslateI18n "Page" [fr; de; fr] "rec1" "tblPosts" "app1" None) 1%nat
             (translate_request second_fails snap1 "Page" "rec1" "tblPosts" "app1" None de)
             10 {| status := 503 |});
      [reflexivity | vm_compute; reflexivity | reflexivity | reflexivity | exact I].
Defined.

Lemma create_map_image_timeout_race_witness :
  fst (create_map_image (answering 120001 200) "Template" "Prompt" "Map" "rec1" "tblPosts" "app1"
         world0) = Throw (Error "Request timed out after 120 seconds") /\
  fst (create_map_image (answering 119999 204) "Template" "Prompt" "Map" "rec1" "tblPosts" "app1"
         world0) = Ok tt.
Proof.
  split.
  - destruct (create_map_image_timeout_race (answering 120001 200) world0
                "Template" "Prompt" "Map" "rec1" "tblPosts" "app1" snap1) as [Hlate _];
      [reflexivity | decide_in | decide_in | reflexivity | reflexivity |].
    rewrite Hlate; [reflexivity|].
    right. exists 120001, (Fulfilled {| status := 200 |}). split; [reflexivity|].
    left. reflexivity.
  - destruct (create_map_image_timeout_race (answering 119999 204) world0
                "Template" "Prompt" "Map" "rec1" "tblPosts" "app1" snap1) as [_ Hearly];
      [reflexivity | decide_in | decide_in | reflexivity | reflexivity |].
    rewrite (Hearly 119999 {| status := 204 |});
      [reflexivity | reflexivity | left; reflexivity | cbn; lia].
Defined.

Lemma translate_one_request_per_language_witness :
  exists w',
    translate_i18n (answering 10 200) "Page" [fr; de] "rec1" "tblPosts" "app1" None world0
      = (Ok tt, w') /\
    fetches (log w') =
      fetches (log world0) ++
      (translate_request (answering 10 200) snap1 "Page" "rec1" "tblPosts" "app1" None <$> [fr; de]) /\
    length (fetches (log w')) = (length (fetches (log world0)) + length [fr; de])%nat /\
    forall i l, [fr; de] !! i = Some l ->
      exists rq, fetches (log w') !! (length (fetches (log world0)) + i)%nat = Some rq /\
                 obj_get "output_column" (body rq) = Some (JStr (lang_column l)).
Proof.
  apply (translate_one_request_per_language (answering 10 200) world0 "Page" [fr; de]
           "rec1" "tblPosts" "app1" None snap1); [reflexivity | decide_in |].
  intros i l _. exists 10, {| status := 200 |}. split; reflexivity.
Defined.

Lemma translate_aborts_on_first_failure_witness :
  exists w',
    translate_i18n second_fails "Page" [fr; de; fr] "rec1" "tblPosts" "app1" None world0
      = (Throw (Error ("HTTP error! status: " +:+ show 503)), w') /\
    fetches (log w') =
      fetches (log world0) ++
      (translate_request second_fails snap1 "Page" "rec1" "tblPosts" "app1" None
         <$> take 2 [fr; de; fr]) /\
    length (fetches (log w')) = (length (fetches (log world0)) + 2)%nat.
Proof.
  apply (translate_aborts_on_first_failure second_fails world0 "Page" [fr; de; fr]
           "rec1" "tblPosts" "app1" None snap1 1%nat de);
    [reflexivity | decide_in | reflexivity | |].
  - intros i l Hi _. assert (i = 0%nat) as -> by lia.
    exists 10, {| status := 200 |}. split; reflexivity.
  - left. exists 10, {| status := 503 |}. repeat split; reflexivity.
Defined.

Lemma ai_generate_unknown_prompt_witness :
  ai_generate (answering 350 200) ["Topic"] "nope" "Summary" "rec1" "tblPosts" "app1" None None
    world0 = (Throw (Error ("Failed to retrieve system prompt: " +:+ "nope")), world0).
Proof.
  apply (ai_generate_unknown_prompt (answering 350 200) world0 ["Topic"] "nope" "Summary"
           "rec1" "tblPosts" "app1" None None 1%nat prompts);
    [reflexivity | decide_in | decide_in |].
  intros r Hr. apply list_elem_of_singleton in Hr as ->. vm_compute. discriminate.
Defined.

Lemma sync_provisions_field_once_witness :
  let E := answering 350 200 in
  let w1 := snd (sync_to_wordpress E "fr" "Author" "rec1" "tblPosts" "app1" world0) in
  let w2 := snd (sync_to_wordpress E "fr" "Author" "rec2" "tblPosts" "app1" w1) in
  created_fields (log w1) = created_fields (log world0) ++ [("tblPosts", "post_id_fr", "number")] /\
  created_fields (log w2) = created_fields (log w1) /\
  exists t2, table_of w2 "tblPosts" = Some t2 /\
             length (filter (fun c => col_name c = post_id_column_of "fr") (columns t2)) = 1%nat.
Proof.
  apply (sync_provisions_field_once (answering 350 200) world0 "fr" "Author" "rec1" "Author" "rec2"
           "tblPosts" "app1" 0%nat posts); reflexivity.
Defined.

Lemma ai_generate_user_msg_witness :
  exists rq,
    fetches (log (snd (ai_generate (answering 350 200) ["Topic"; "Summary"; "Keywords"]
                         "summarise" "Summary" "rec1" "tblPosts" "app1" None None world0))) =
      fetches (log world0) ++ [rq] /\
    obj_get "user_msg" (body rq) =
      Some (JStr ("<Topic>maps</Topic>" +:+ String "010"%char
                  ("<Summary></Summary>" +:+ String "010"%char
                   "<Keywords>rocq prover</Keywords>"))).
Proof.
  destruct (ai_generate_user_msg (answering 350 200) world0 ["Topic"; "Summary"; "Keywords"]
              "summarise" "Summary" "rec1" "tblPosts" "app1" None None
              (JStr "You summarise.") snap1) as (rq & Hlog & Hmsg & _);
    [reflexivity | reflexivity | reflexivity | each_in |].
  exists rq. split; [exact Hlog | exact Hmsg].
Defined.

Lemma sync_not_atomic_on_validation_failure_witness :
  exists m w' t t',
    sync_to_wordpress (answering 350 200) "fr" "Author" "rec2" "tblPosts" "app1" world0
      = (Throw (Error m), w') /\
    m ∈ ["No content found"; "No author ID found"] /\
    log w' = log world0 ++ [CreateField (tbl_id t) (post_id_column_of "fr") "number"] /\
    table_of world0 "tblPosts" = Some t /\
    has_column (post_id_column_of "fr") (columns t) = false /\
    table_of w' "tblPosts" = Some t' /\
    has_column (post_id_column_of "fr") (columns t') = true /\
    fetches (log w') = fetches (log world0).
Proof.
  apply (sync_not_atomic_on_validation_failure (answering 350 200) world0 "fr" "Author" "rec2"
           "tblPosts" "app1" snap2).
  - reflexivity.
  - intros Hin. apply (bool_decide_eq_true_2 _) in Hin. vm_compute in Hin. discriminate Hin.
  - intros t _. reflexivity.
  - decide_in.
  - decide_in.
  - left. decide_in.
  - left. reflexivity.
Defined.

(** The examples of the specification, run on the sample base. *)
Example map_image_example :
  let E := answering 350 200 in
  fst (create_map_image E "Template" "Prompt" "Map" "rec2" "tblPosts" "app1" world0)
    = Throw (Error "Missing template or prompt") /\
  create_map_image E "Template" "Prompt" "Map" "rec1" "tblPosts" "app1" world0
    = (Ok tt,
       sent world0
         (post CREATE_MAP_API_ENDPOINT
            (JObj [("base_id", JStr "app1"); ("table_id", JStr "tblPosts");
                   ("record_id", JStr "rec1"); ("output_column", JStr "Map");
                   ("visuals", JArr [JObj [("tpl", JStr "castle");
                                           ("prompt", JStr "sunset")]])]))).
Proof. split; reflexivity. Qed.

(** ** Further runs on the sample base *)

Import Demo2.

Lemma pending_means_unanswered_witness :
  exists i rq,
    fetches (log (snd (run silent (GoogleSearch "Keywords" "Results" "rec1" "tblPosts" "app1")
                         world1))) !! (length (fetches (log world1)) + i)%nat = Some rq /\
    server silent (length (fetches (log world1)) + i) rq = NeverSettles /\
    length (fetches (log (snd (run silent (GoogleSearch "Keywords" "Results" "rec1" "tblPosts"
                                             "app1") world1)))) =
      (length (fetches (log world1)) + S i)%nat.
Proof.
  apply (pending_means_unanswered silent
           (GoogleSearch "Keywords" "Results" "rec1" "tblPosts" "app1") world1).
  reflexivity.
Defined.

Lemma success_means_answered_witness :
  exists rqs,
    fetches (log (snd (run (answering 10 200)
                         (TranslateI18n "Page" [fr; de] "rec1" "tblPosts" "app1" None) world1))) =
      fetches (log world1) ++ rqs /\
    length rqs = 2%nat /\
    forall i rq, rqs !! i = Some rq ->
      exists t r, server (answering 10 200) (length (fetches (log world1)) + i) rq
                    = Settles t (Fulfilled r) /\
                  (true = true -> ok r = true).
Proof.
  apply (success_means_answered (answering 10 200)
           (TranslateI18n "Page" [fr; de] "rec1" "tblPosts" "app1" None) world1).
  reflexivity.
Defined.

Lemma rejection_propagates_witness :
  fst (run offline (AiGenerate ["Topic"] "summarise" "Summary" "rec1" "tblPosts" "app1" None None)
         world1) = Throw (NetworkError "Failed to fetch") /\
  fst (run offline (CreateMapImage "Template" "Prompt" "Map" "rec1" "tblPosts" "app1") world1)
    = Throw (NetworkError "Failed to fetch").
Proof.
  split.
  - eapply (rejection_propagates offline
              (AiGenerate ["Topic"] "summarise" "Summary" "rec1" "tblPosts" "app1" None None)
              world1 0%nat _ 5);
      [vm_compute; reflexivity | reflexivity | exact I].
  - eapply (rejection_propagates offline
              (CreateMapImage "Template" "Prompt" "Map" "rec1" "tblPosts" "app1")
              world1 0%nat _ 5);
      [vm_compute; reflexivity | reflexivity | reflexivity].
Defined.

Lemma only_sync_touches_store_witness :
  base (snd (run (answering 350 500) (CrawlUrlContent "Link" "Text" "rec1" "tblPosts" "app1")
               world1)) = base world1 /\
  created_fields (log (snd (run (answering 350 500)
                              (CrawlUrlContent "Link" "Text" "rec1" "tblPosts" "app1") world1)))
    = created_fields (log world1).
Proof.
  apply (only_sync_touches_store (answering 350 500)
           (CrawlUrlContent "Link" "Text" "rec1" "tblPosts" "app1") world1).
  reflexivity.
Defined.

Lemma sync_creation_rejected_witness :
  sync_to_wordpress locked "fr" "Author" "rec1" "tblPosts" "app1" world1
    = (Throw (SdkError "Not allowed to create fields"), world1).
Proof.
  apply (sync_creation_rejected locked world1 "fr" "Author" "rec1" "tblPosts" "app1" 0%nat posts);
    reflexivity.
Defined.

Lemma sync_unparsable_content_witness :
  exists m w',
    (sync_to_wordpress (answering 350 200) "fr" "Author" "rec3" "tblPosts" "app1" world1
       = (Throw (SyntaxError m), w') \/
     sync_to_wordpress (answering 350 200) "fr" "Author" "rec3" "tblPosts" "app1" world1
       = (Throw (TypeError m), w')) /\
    fetches (log w') = fetches (log world1).
Proof.
  apply (sync_unparsable_content (answering 350 200) world1 "fr" "Author" "rec3" "tblPosts"
           "app1" snap3);
    [reflexivity | intros t _; reflexivity | decide_in | decide_in | left; decide_in
    | reflexivity | reflexivity | left; reflexivity].
Defined.


Lemma ai_generate_uses_first_prompt_witness :
  let rq := post AI_API_ENDPOINT
              (JObj [("base_id", JStr "app1"); ("table_id", JStr "tblPosts");
                     ("record_id", JStr "rec1"); ("output_column", JStr "Summary");
                     ("model", JStr (default "gpt-4o" None));
                     ("system_prompt", default JNull (row_cells first_prompt !! "Prompt"));
                     ("user_msg",
                      JStr (join nl ((fun c => xml_tag c (cell_string (answering 350 500) snap1 c))
                                       <$> ["Topic"])));
                     ("openai_json_format", JBool (default false None))]) in
  ai_generate (answering 350 500) ["Topic"] "summarise" "Summary" "rec1" "tblPosts" "app1"
    None None world1 =
    (unchecked_outcome (server (answering 350 500) (length (fetches (log world1))) rq),
     sent world1 rq).
Proof.
  apply (ai_generate_uses_first_prompt (answering 350 500) world1 ["Topic"] "summarise"
           "Summary" "rec1" "tblPosts" "app1" None None 1%nat prompts
           [other_prompt] first_prompt [second_prompt; blank_prompt; review_prompt] snap1);
    [reflexivity | decide_in | decide_in | reflexivity | | reflexivity | reflexivity
    | reflexivity | each_in].
  intros r' Hr'. apply list_elem_of_singleton in Hr' as ->. vm_compute. discriminate.
Defined.

Lemma ai_generate_first_prompt_empty_witness :
  ai_generate (answering 350 200) ["Topic"] "review" "Summary" "rec1" "tblPosts" "app1"
    None None world1 =
    (Throw (Error ("Failed to retrieve system prompt: " +:+ "review")), world1).
Proof.
  apply (ai_generate_first_prompt_empty (answering 350 200) world1 ["Topic"] "review"
           "Summary" "rec1" "tblPosts" "app1" None None 1%nat prompts
           [other_prompt; first_prompt; second_prompt] blank_prompt [review_prompt]);
    [reflexivity | decide_in | decide_in | reflexivity | | reflexivity | reflexivity].
  intros r' Hr'.
  repeat (apply elem_of_cons in Hr' as [-> | Hr']; [vm_compute; discriminate|]).
  now apply elem_of_nil in Hr'.
Defined.

Lemma google_search_sends_keywords_witness :
  let rq := post SEARCH_API_ENDPOINT
              (JObj [("base_id", JStr "app1"); ("table_id", JStr "tblPosts");
                     ("record_id", JStr "rec1"); ("output_column", JStr "Results");
                     ("keywords", JStr (cell_string (answering 350 404) snap1 "Keywords"))]) in
  google_search (answering 350 404) "Keywords" "Results" "rec1" "tblPosts" "app1" world1 =
    (unchecked_outcome (server (answering 350 404) (length (fetches (log world1))) rq),
     sent world1 rq) /\
  forall t r, server (answering 350 404) (length (fetches (log world1))) rq
                = Settles t (Fulfilled r) ->
              fst (google_search (answering 350 404) "Keywords" "Results" "rec1" "tblPosts"
                     "app1" world1) = Ok tt.
Proof.
  apply (google_search_sends_keywords (answering 350 404) world1 "Keywords" "Results" "rec1"
           "tblPosts" "app1" snap1); [reflexivity | decide_in | vm_compute; discriminate].
Defined.

Lemma crawl_url_content_sends_url_witness :
  let rq := post CRAWL_URL_API_ENDPOINT
              (JObj [("base_id", JStr "app1"); ("table_id", JStr "tblPosts");
                     ("record_id", JStr "rec1"); ("output_column", JStr "Text");
                     ("url", cell snap1 "Link")]) in
  crawl_url_content (answering 350 200) "Link" "Text" "rec1" "tblPosts" "app1" world1 =
    (settle_outcome "API request failed with status "
       (server (answering 350 200) (length (fetches (log world1))) rq),
     sent world1 rq).
Proof.
  apply (crawl_url_content_sends_url (answering 350 200) world1 "Link" "Text" "rec1"
           "tblPosts" "app1" snap1); [reflexivity | decide_in | reflexivity].
Defined.

Lemma missing_record_is_type_error_witness :
  (exists m,
     run (answering 350 200) (TranslateI18n "Page" [fr; de] "rec9" "tblPosts" "app1" None) world1
       = (Throw (TypeError m), world1)) /\
  (exists m w',
     run (answering 350 200) (SyncToWordpress "fr" "Author" "rec9" "tblPosts" "app1") world1
       = (Throw (TypeError m), w') /\
     log w' = [CreateField "tblPosts" "post_id_fr" "number"] /\
     (has_column "post_id_fr" <$> (columns <$> table_of world1 "tblPosts")) = Some false /\
     (has_column "post_id_fr" <$> (columns <$> table_of w' "tblPosts")) = Some true /\
     fetches (log w') = []) /\
  (exists m,
     run (answering 350 200) (SyncToWordpress "en" "Author" "rec9" "tblPosts" "app1") world1
       = (Throw (TypeError m), world1)).
Proof.
  split; [|split].
  - destruct (missing_record_is_type_error (answering 350 200) world1
                (TranslateI18n "Page" [fr; de] "rec9" "tblPosts" "app1" None) 0%nat posts)
      as (m & Hrun & _); [reflexivity | reflexivity | reflexivity | exact I |].
    now exists m.
  - destruct (missing_record_is_type_error (answering 350 200) world1
                (SyncToWordpress "fr" "Author" "rec9" "tblPosts" "app1") 0%nat posts)
      as (m & Hrun & _); [reflexivity | reflexivity | reflexivity | intros t _; reflexivity |].
    eexists m, _. split; [exact Hrun|]. repeat split; reflexivity.
  - destruct (missing_record_is_type_error (answering 350 200) world1
                (SyncToWordpress "en" "Author" "rec9" "tblPosts" "app1") 0%nat posts)
      as (m & Hrun & _); [reflexivity | reflexivity | reflexivity | intros t _; reflexivity |].
    now exists m.
Defined.

Lemma falsy_input_rejected_witness :
  (exists w',
     run (answering 350 200) (SyncToWordpress "en" "Author" "rec4" "tblPosts" "app1") world2
       = (Throw (Error "No author ID found"), w') /\
     fetches (log w') = fetches (log world2)) /\
  (exists w',
     run (answering 350 200) (CrawlUrlContent "Link" "Text" "rec4" "tblPosts" "app1") world2
       = (Throw (Error "No URL found"), w') /\
     fetches (log w') = fetches (log world2)) /\
  (exists w',
     run (answering 350 200) (CreateMapImage "Template" "Prompt" "Map" "rec5" "tblPosts" "app1")
       world2 = (Throw (Error "Missing template or prompt"), w') /\
     fetches (log w') = fetches (log world2)) /\
  (exists w',
     run (answering 350 200) (GoogleSearch "Keywords" "Results" "rec5" "tblPosts" "app1") world2
       = (Throw (Error "No keywords found"), w') /\
     fetches (log w') = fetches (log world2)).
Proof.
  split; [|split; [|split]].
  - apply (falsy_input_rejected (answering 350 200) world2
             (SyncToWordpress "en" "Author" "rec4" "tblPosts" "app1")
             (snapshot (field_names flagged_posts) row4) "Author");
      [reflexivity | each_in | intros t _; reflexivity | decide_in | reflexivity].
  - apply (falsy_input_rejected (answering 350 200) world2
             (CrawlUrlContent "Link" "Text" "rec4" "tblPosts" "app1")
             (snapshot (field_names flagged_posts) row4) "Link");
      [reflexivity | each_in | exact I | decide_in | reflexivity].
  - apply (falsy_input_rejected (answering 350 200) world2
             (CreateMapImage "Template" "Prompt" "Map" "rec5" "tblPosts" "app1") snap5 "Template");
      [reflexivity | each_in | exact I | decide_in | reflexivity].
  - apply (falsy_input_rejected (answering 350 200) world2
             (GoogleSearch "Keywords" "Results" "rec5" "tblPosts" "app1") snap5 "Keywords");
      [reflexivity | each_in | exact I | decide_in | reflexivity].
Defined.
